(** * Query generation of the object mapper (lib/mapping/query-generator.js)

    A shallow embedding of the [QueryGenerator] class: the four statement
    builders (SELECT, INSERT, UPDATE, DELETE), the idempotency flags they
    return, and the parameter getters they compile.

    The builders are pure string functions and are embedded as such.  The
    parameter getters are JavaScript functions that the source synthesises
    as text and compiles with [vm.Script]; here the synthesised text is kept
    as a sequence of tokens (element expressions and the separator [", "]),
    [scriptText] prints it back to the text the source builds, and
    [runInThisContext] gives the array literal its JavaScript meaning. *)

From Stdlib Require Import ZArith String Ascii List Lia.
From stdpp Require Import base option list gmap strings pretty.

Set Warnings "-register-all".

(** ** JavaScript values *)

(** Modelled from the spec: the classes [QueryOperator] and [QueryAssignment]
    of module ./q are not among the sources.  A comparison value is scalar
    (operator symbol, one value, a flag marking the membership test) or
    composite (connector symbol and two children, [hasChildValues] set and
    [value] the two-element array of the children); an assignment value has
    a sign, a raw value and the [inverted] flag.  Everything else is a
    literal. *)
Inductive jsval : Type :=
  | VUndefined
  | VNull
  | VBool (b : bool)
  | VNumber (n : Z)
  | VString (s : string)
  | VArray (items : list jsval)
  | VObject (fields : list (string * jsval))
  | QueryOperator (key : string) (operand : jsval) (isInOperator : bool)
  | QueryOperatorChildren (key : string) (child0 child1 : jsval)
  | QueryAssignment (sign : string) (operand : jsval) (inverted : bool).

(** [typeof v === "number"] *)
Definition typeof_number (v : jsval) : bool :=
  match v with VNumber _ => true | _ => false end.

(** JavaScript truthiness, as used by [!x], [x && y] and [if (x)]. *)
Definition truthy (v : jsval) : bool :=
  match v with
  | VUndefined | VNull => false
  | VBool b => b
  | VNumber n => negb (n =? 0)%Z
  | VString s => negb (String.eqb s EmptyString)
  | _ => true
  end.

(** [v === true] *)
Definition is_true (v : jsval) : bool :=
  match v with VBool true => true | _ => false end.

(** [v instanceof QueryAssignment] *)
Definition instanceof_QueryAssignment (v : jsval) : bool :=
  match v with QueryAssignment _ _ _ => true | _ => false end.

Fixpoint assoc (name : string) (fields : list (string * jsval)) : jsval :=
  match fields with
  | [] => VUndefined
  | (k, v) :: rest => if String.eqb k name then v else assoc name rest
  end.

(** Property read [v.name] / [v['name']]; [None] is the TypeError raised on
    [undefined] and [null].  Only own data properties are modelled: members
    inherited from a prototype ([toString], [constructor], ...) are not, so
    statements that read documents are made for property names outside
    [Object_prototype_members]. *)
Definition get_member (v : jsval) (name : string) : option jsval :=
  match v with
  | VUndefined | VNull => None
  | VObject fields => Some (assoc name fields)
  | QueryOperator key operand isIn =>
      Some (if String.eqb name "value" then operand
            else if String.eqb name "key" then VString key
            else if String.eqb name "hasChildValues" then VBool false
            else if String.eqb name "isInOperator" then VBool isIn
            else VUndefined)
  | QueryOperatorChildren key l r =>
      Some (if String.eqb name "value" then VArray [l; r]
            else if String.eqb name "key" then VString key
            else if String.eqb name "hasChildValues" then VBool true
            else VUndefined)
  | QueryAssignment sign operand inverted =>
      Some (if String.eqb name "value" then operand
            else if String.eqb name "sign" then VString sign
            else if String.eqb name "inverted" then VBool inverted
            else VUndefined)
  | _ => Some VUndefined
  end.

(** Indexed read [v[i]]. *)
Definition get_index (v : jsval) (i : nat) : option jsval :=
  match v with
  | VUndefined | VNull => None
  | VArray items => Some (default VUndefined (items !! i))
  | VString s =>
      Some (match String.get i s with
            | Some c => VString (String c EmptyString)
            | None => VUndefined
            end)
  | VObject fields => Some (assoc (pretty i) fields)
  | _ => Some VUndefined
  end.

(** ** Schema and bindings *)

(** Modelled from the spec: the type tags of [types.dataTypes] (module
    ../types is not among the sources); the generator compares a column's
    tag with [list] and [counter] only. *)
Module dataTypes.
Inductive t : Type := list | counter | other (tag : string).
Definition eqb (a b : t) : bool :=
  match a, b with
  | list, list | counter, counter => true
  | other x, other y => String.eqb x y
  | _, _ => false
  end.
End dataTypes.

(** A column of the table metadata: [column.name] and [column.type.code]. *)
Module column.
Record type_info : Type := mk_type { code : dataTypes.t }.
Record t : Type := mk { name : string; type : type_info }.
End column.

(** [TableMetadata], with the fields the generator reads. *)
Module table.
Record t : Type := mk {
  name : string;
  columnsByName : gmap string column.t;
  partitionKeys : list column.t;
  clusteringKeys : list column.t
}.
End table.

(** An item of [propertiesInfo]; [fromModel] is the truthiness of the
    conversion function the binding carries. *)
Record PropertyInfo : Type := mkProperty {
  propertyName : string;
  columnName : string;
  value : jsval;
  fromModel : bool
}.

(** ** Strings *)

Definition question_mark : ascii := "?"%char.

(** Number of occurrences of a character. *)
Fixpoint count_char (c : ascii) (s : string) : nat :=
  match s with
  | EmptyString => 0
  | String a rest => (if Ascii.eqb a c then 1 else 0) + count_char c rest
  end.

(** Number of [?] placeholders of a query text. *)
Definition placeholders (query : string) : nat := count_char question_mark query.

(** [s.endsWith(suffix)] *)
Fixpoint ends_with (suffix s : string) : bool :=
  String.eqb s suffix ||
  match s with
  | EmptyString => false
  | String _ rest => ends_with suffix rest
  end.

(** [s.includes(sub)] *)
Fixpoint includes (sub s : string) : bool :=
  String.prefix sub s ||
  match s with
  | EmptyString => false
  | String _ rest => includes sub rest
  end.

(** ** Query text *)

Fixpoint _getSingleCondition (columnName : string) (value : jsval) : string :=
  match value with
  | QueryOperatorChildren key child0 child1 =>
      _getSingleCondition columnName child0
      +:+ " " +:+ key +:+ " " +:+ _getSingleCondition columnName child1
  | QueryOperator key _ _ => columnName +:+ " " +:+ key +:+ " ?"
  | _ => columnName +:+ " = ?"
  end.

Definition _getConditionWithOperators (propertiesInfo : list PropertyInfo) : string :=
  String.concat " AND "
    (map (λ p, _getSingleCondition (columnName p) (value p)) propertiesInfo).

Definition getSelect (tableName keyspace : string)
    (propertiesInfo fieldsInfo : list PropertyInfo)
    (orderByColumns : list (string * string))
    (allowFilter : jsval) (limit : jsval) : string :=
  let query := "SELECT " in
  let query := query +:+
    (if 0 <? length fieldsInfo
     then String.concat ", " (map columnName fieldsInfo)
     else "*") in
  let query := query +:+ " FROM " +:+ keyspace +:+ "." +:+ tableName in
  let query :=
    if 0 <? length propertiesInfo
    then (query +:+ " WHERE ") +:+ _getConditionWithOperators propertiesInfo
    else query in
  let query :=
    if 0 <? length orderByColumns
    then (query +:+ " ORDER BY ") +:+
         String.concat ", " (map (λ order, order.1 +:+ " " +:+ order.2) orderByColumns)
    else query in
  let query := if typeof_number limit then query +:+ " LIMIT ?" else query in
  query +:+ " ALLOW FILTERING".

Definition _getInsertQuery (tableName keyspace : string)
    (propertiesInfo : list PropertyInfo)
    (ifNotExists : jsval) (ttl : jsval) (allowFilter : jsval) : string :=
  let query := "INSERT INTO " +:+ keyspace +:+ "." +:+ tableName +:+ " (" in
  let query := query +:+ String.concat ", " (map columnName propertiesInfo) in
  let query := query +:+ ") VALUES (" in
  let query := query +:+ String.concat ", " (map (λ _, "?") propertiesInfo) in
  let query := query +:+ ")" in
  let query := if is_true ifNotExists then query +:+ " IF NOT EXISTS" else query in
  let query := if typeof_number ttl then query +:+ " USING TTL ?" else query in
  query.

Definition _getUpdateQuery (tableName keyspace : string) (primaryKeys : gset string)
    (propertiesInfo : list PropertyInfo) (when : list PropertyInfo)
    (ifExists : jsval) (allowFilter : jsval) (ttl : jsval) : string :=
  let query := "UPDATE " +:+ keyspace +:+ "." +:+ tableName +:+ " " in
  let query := if typeof_number ttl then query +:+ "USING TTL ? " else query in
  let query := query +:+ "SET " in
  let query := query +:+
    String.concat ", "
      (map (λ p,
              match value p with
              | QueryAssignment sign _ inverted =>
                  if inverted
                  then columnName p +:+ " = ? " +:+ sign +:+ " " +:+ columnName p
                  else columnName p +:+ " = " +:+ columnName p +:+ " " +:+ sign +:+ " ?"
              | _ => columnName p +:+ " = ?"
              end)
           (filter (λ p, columnName p ∉ primaryKeys) propertiesInfo)) in
  let query := query +:+ " WHERE " in
  let query := query +:+
    String.concat " AND "
      (map (λ p, columnName p +:+ " = ?")
           (filter (λ p, columnName p ∈ primaryKeys) propertiesInfo)) in
  if is_true ifExists then query +:+ " IF EXISTS"
  else if 0 <? length when
  then (query +:+ " IF ") +:+ _getConditionWithOperators when
  else query.

Definition _getDeleteQuery (tableName keyspace : string) (primaryKeys : gset string)
    (propertiesInfo : list PropertyInfo) (when : list PropertyInfo)
    (ifExists : jsval) (deleteOnlyColumns : jsval) : string :=
  let query := "DELETE" in
  let query :=
    if truthy deleteOnlyColumns then
      let columnsToDelete :=
        String.concat ", "
          (map columnName (filter (λ p, columnName p ∉ primaryKeys) propertiesInfo)) in
      if negb (String.eqb columnsToDelete EmptyString) then query +:+ " " +:+ columnsToDelete
      else query
    else query in
  let query := query +:+ " FROM " +:+ keyspace +:+ "." +:+ tableName +:+ " WHERE " in
  let query := query +:+
    String.concat " AND "
      (map (λ p, columnName p +:+ " = ?")
           (filter (λ p, columnName p ∈ primaryKeys) propertiesInfo)) in
  if is_true ifExists then query +:+ " IF EXISTS"
  else if 0 <? length when
  then (query +:+ " IF ") +:+ _getConditionWithOperators when
  else query.

(** ** Parameter getters: the synthesised script *)

(** Expressions that occur as elements of the returned array literal. *)
Inductive expr : Type :=
  | EDoc                                        (* doc *)
  | EDocInfo                                    (* docInfo *)
  | EMember (e : expr) (name : string)          (* e.name *)
  | EProperty (e : expr) (name : string)        (* e['name'] *)
  | EIndex (e : expr) (i : nat)                 (* e[i] *)
  | EFromModel (propName : string) (arg : expr) (* mappingInfo.getFromModelFn('p')(arg) *)
  | EMapFromModel (e : expr) (propName : string).
                               (* e.map(v => mappingInfo.getFromModelFn('p')(v)) *)

(** A piece of script text between [return \[] and [\]]: an element
    expression or the separator [", "]. *)
Inductive token : Type :=
  | Expr (e : expr)
  | Comma.

Record Script : Type := mkScript {
  functionName : string;
  returned : list token
}.

Fixpoint expr_text (e : expr) : string :=
  match e with
  | EDoc => "doc"
  | EDocInfo => "docInfo"
  | EMember e name => expr_text e +:+ "." +:+ name
  | EProperty e name => expr_text e +:+ "['" +:+ name +:+ "']"
  | EIndex e i => expr_text e +:+ "[" +:+ pretty i +:+ "]"
  | EFromModel propName arg =>
      "mappingInfo.getFromModelFn('" +:+ propName +:+ "')(" +:+ expr_text arg +:+ ")"
  | EMapFromModel e propName =>
      expr_text e +:+ ".map(v => mappingInfo.getFromModelFn('" +:+ propName +:+ "')(v))"
  end.

Definition token_text (t : token) : string :=
  match t with
  | Expr e => expr_text e
  | Comma => ", "
  end.

Definition tokens_text (ts : list token) : string :=
  String.concat EmptyString (map token_text ts).

Definition newline : string := String (ascii_of_nat 10) EmptyString.

(** The text handed to [vm.Script]. *)
Definition scriptText (s : Script) : string :=
  "(function " +:+ functionName s +:+ "(doc, docInfo, mappingInfo) {" +:+ newline
  +:+ "  return [" +:+ tokens_text (returned s) +:+ "];" +:+ newline +:+ "})".

(** [fragments.join(", ")] on pieces of script text. *)
Fixpoint join_tokens (fragments : list (list token)) : list token :=
  match fragments with
  | [] => []
  | f :: rest =>
      match rest with
      | [] => f
      | _ :: _ => f ++ Comma :: join_tokens rest
      end
  end.

Definition _getMappingFunctionCall (propName : string) (valueGetter : expr) : expr :=
  EFromModel propName valueGetter.

Fixpoint _valueGetterSingle (prefix : expr) (propName : string) (value : jsval)
    (fromModelFn : bool) : list token :=
  match value with
  | QueryOperatorChildren _ child0 child1 =>
      _valueGetterSingle (EIndex (EMember prefix "value") 0) propName child0 fromModelFn
      ++ Comma ::
      _valueGetterSingle (EIndex (EMember prefix "value") 1) propName child1 fromModelFn
  | QueryOperator _ _ isInOperator =>
      let valueGetter := EMember prefix "value" in
      if isInOperator && fromModelFn
      then [Expr (EMapFromModel valueGetter propName)]
      else if negb fromModelFn then [Expr valueGetter]
           else [Expr (_getMappingFunctionCall propName valueGetter)]
  | _ =>
      let valueGetter := prefix in
      if negb fromModelFn then [Expr valueGetter]
      else [Expr (_getMappingFunctionCall propName valueGetter)]
  end.

Definition _valueGetterExpression (propertiesInfo : list PropertyInfo)
    (objectName : option expr) : list token :=
  let objectName := default EDoc objectName in
  join_tokens
    (map (λ p, _valueGetterSingle (EProperty objectName (propertyName p))
                 (propertyName p) (value p) (fromModel p))
         propertiesInfo).

Definition _assignmentGetterExpression (propertiesInfo : list PropertyInfo)
    (prefix : option expr) : list token :=
  let prefix := default EDoc prefix in
  join_tokens
    (map (λ p,
            let valueGetter :=
              if instanceof_QueryAssignment (value p)
              then EMember (EProperty prefix (propertyName p)) "value"
              else EProperty prefix (propertyName p) in
            if fromModel p
            then [Expr (_getMappingFunctionCall (propertyName p) valueGetter)]
            else [Expr valueGetter])
         propertiesInfo).

Definition docInfo_when : expr := EMember EDocInfo "when".

Definition selectParamsGetter (propertiesInfo : list PropertyInfo) (limit : jsval) : Script :=
  let scriptText := _valueGetterExpression propertiesInfo None in
  let scriptText :=
    if typeof_number limit then
      (if 0 <? length propertiesInfo then scriptText ++ [Comma] else scriptText)
      ++ [Expr (EProperty EDocInfo "limit")]
    else scriptText in
  mkScript "getParametersSelect" scriptText.

Definition _insertParamsGetter (propertiesInfo : list PropertyInfo) (docInfo : jsval) : Script :=
  let scriptText := _valueGetterExpression propertiesInfo None in
  let scriptText :=
    if truthy docInfo && typeof_number (default VUndefined (get_member docInfo "ttl"))
    then scriptText ++ [Comma; Expr (EProperty EDocInfo "ttl")]
    else scriptText in
  mkScript "getParametersInsert" scriptText.

Definition _updateParamsGetter (primaryKeys : gset string)
    (propertiesInfo : list PropertyInfo) (when : list PropertyInfo) (ttl : jsval) : Script :=
  let scriptText :=
    if typeof_number ttl then [Expr (EProperty EDocInfo "ttl"); Comma] else [] in
  let scriptText := scriptText ++
    _assignmentGetterExpression
      (filter (λ p, columnName p ∉ primaryKeys) propertiesInfo) None in
  let scriptText := scriptText ++ [Comma] in
  let scriptText := scriptText ++
    _valueGetterExpression
      (filter (λ p, columnName p ∈ primaryKeys) propertiesInfo) None in
  let scriptText :=
    if 0 <? length when
    then scriptText ++ Comma :: _valueGetterExpression when (Some docInfo_when)
    else scriptText in
  mkScript "getParametersUpdate" scriptText.

Definition _deleteParamsGetter (primaryKeys : gset string)
    (propertiesInfo : list PropertyInfo) (when : list PropertyInfo) : Script :=
  let scriptText :=
    _valueGetterExpression
      (filter (λ p, columnName p ∈ primaryKeys) propertiesInfo) None in
  let scriptText :=
    if 0 <? length when
    then scriptText ++ Comma :: _valueGetterExpression when (Some docInfo_when)
    else scriptText in
  mkScript "getParametersDelete" scriptText.

(** ** Running a parameter getter *)

(** The elements of the array literal [\[ tokens \]]: a comma that follows
    no expression is an elision (a hole, which counts towards the length),
    a single trailing comma is ignored, and two expressions without a comma
    between them are a syntax error. *)
Fixpoint elements (ts : list token) : option (list (option expr)) :=
  match ts with
  | [] => Some []
  | Comma :: rest => cons None <$> elements rest
  | Expr e :: rest =>
      match rest with
      | [] => Some [Some e]
      | Comma :: rest' => cons (Some e) <$> elements rest'
      | Expr _ :: _ => None
      end
  end.

(** The three arguments of a parameter getter; [getFromModelFn] is the
    lookup of the conversion function of a property in [mappingInfo]. *)
Record Env : Type := mkEnv {
  doc : jsval;
  docInfo : jsval;
  getFromModelFn : string → option (jsval → jsval)
}.

(** Evaluation of an element expression; [None] is a thrown TypeError. *)
Fixpoint eval (ρ : Env) (e : expr) : option jsval :=
  match e with
  | EDoc => Some (doc ρ)
  | EDocInfo => Some (docInfo ρ)
  | EMember e name | EProperty e name => v ← eval ρ e; get_member v name
  | EIndex e i => v ← eval ρ e; get_index v i
  | EFromModel propName arg =>
      f ← getFromModelFn ρ propName; v ← eval ρ arg; Some (f v)
  | EMapFromModel e propName =>
      v ← eval ρ e;
      match v with
      | VArray items =>
          VArray <$> mapM (λ x, f ← getFromModelFn ρ propName; Some (f x)) items
      | _ => None
      end
  end.

Definition eval_element (ρ : Env) (slot : option expr) : option jsval :=
  match slot with
  | Some e => eval ρ e
  | None => Some VUndefined
  end.

(** Elements are evaluated from left to right. *)
Definition eval_elements (ρ : Env) (slots : list (option expr)) : option (list jsval) :=
  mapM (eval_element ρ) slots.

(** Calling the compiled function: the array it returns, or [None] when it
    throws.  The meaning is given to the token list; it is the meaning of
    the script text when the property names in it are [script_safe]. *)
Definition runInThisContext (s : Script) (ρ : Env) : option (list jsval) :=
  slots ← elements (returned s); eval_elements ρ slots.

(** The same for a piece of script text taken as the whole array body. *)
Definition run_tokens (ts : list token) (ρ : Env) : option (list jsval) :=
  slots ← elements ts; eval_elements ρ slots.

(** ** The statement builders *)

Record GeneratedStatement : Type := mkStatement {
  query : string;
  paramsGetter : Script;
  isIdempotent : bool;
  isCounter : option bool   (* present on UPDATE results only *)
}.

(** [docInfo && docInfo.name] *)
Definition docInfo_field (docInfo : jsval) (name : string) : jsval :=
  if truthy docInfo then default VUndefined (get_member docInfo name) else docInfo.

(** The names every plain object inherits from [Object.prototype]: a
    bracket read [object\[name\]] finds them although they are no own key. *)
Definition Object_prototype_members : list string :=
  ["constructor"; "__defineGetter__"; "__defineSetter__"; "hasOwnProperty";
   "__lookupGetter__"; "__lookupSetter__"; "isPrototypeOf"; "propertyIsEnumerable";
   "toString"; "valueOf"; "__proto__"; "toLocaleString"].

Definition inherited (name : string) : bool :=
  existsb (String.eqb name) Object_prototype_members.

(** [table.columnsByName\[name\] !== undefined] on a plain object. *)
Definition has_member (columnsByName : gmap string column.t) (name : string) : bool :=
  bool_decide (is_Some (columnsByName !! name)) || inherited name.

(** The test of the schema filters,
    [table.columnsByName\[pInfo.columnName\] !== undefined]. *)
Definition column_defined (table : table.t) (pInfo : PropertyInfo) : Prop :=
  has_member (table.columnsByName table) (columnName pInfo) = true.

Global Instance column_defined_dec table pInfo : Decision (column_defined table pInfo).
Proof. unfold column_defined. apply _. Defined.

(** The schema has the binding's column as an own key: [column_defined]
    without the names a plain object inherits (lemma
    [column_defined_known]). *)
Definition known_column (table : table.t) (pInfo : PropertyInfo) : Prop :=
  is_Some (table.columnsByName table !! columnName pInfo).

Global Instance known_column_dec table pInfo : Decision (known_column table pInfo).
Proof. unfold known_column. apply _. Defined.

(** [new Set(table.partitionKeys.concat(table.clusteringKeys).map(c => c.name))] *)
Definition primaryKeys_of (table : table.t) : gset string :=
  list_to_set (map column.name (table.partitionKeys table ++ table.clusteringKeys table)).

Definition getInsert (table : table.t) (keyspace : string)
    (propertiesInfo : list PropertyInfo) (docInfo : jsval)
    (ifNotExists : jsval) (allowFilter : jsval) : GeneratedStatement :=
  let ttl := docInfo_field docInfo "ttl" in
  let filteredPropertiesInfo := filter (column_defined table) propertiesInfo in
  {| query := _getInsertQuery (table.name table) keyspace filteredPropertiesInfo
                ifNotExists ttl allowFilter;
     paramsGetter := _insertParamsGetter filteredPropertiesInfo docInfo;
     isIdempotent := negb (truthy ifNotExists);
     isCounter := None |}.

(** [array.filter(callback)] for a callback that also assigns to locals of
    the enclosing function: the state is threaded through the calls. *)
Fixpoint filter_with_state {A S : Type} (callback : A → S → bool * S)
    (l : list A) (s : S) : list A * S :=
  match l with
  | [] => ([], s)
  | x :: rest =>
      let '(keep, s') := callback x s in
      let '(kept, s'') := filter_with_state callback rest s' in
      (if keep then x :: kept else kept, s'')
  end.

(** The filter callback of [getUpdate]; the state is
    [(isIdempotent, isCounter)].  For a column name inherited from
    [Object.prototype] and absent from the schema the source does not
    return: it reads [column.type.code] of the inherited member and throws
    a TypeError.  The embedding of [getUpdate] covers own and absent column
    names, where [column_defined] and [known_column] agree. *)
Definition getUpdate_callback (table : table.t) (pInfo : PropertyInfo)
    (flags : bool * bool) : bool * (bool * bool) :=
  match table.columnsByName table !! columnName pInfo with
  | None => (false, flags)
  | Some column =>
      if dataTypes.eqb (column.code (column.type column)) dataTypes.list
         && instanceof_QueryAssignment (value pInfo)
      then (true, (false, flags.2))
      else if dataTypes.eqb (column.code (column.type column)) dataTypes.counter
      then (true, (false, true))
      else (true, flags)
  end.

Definition getUpdate (table : table.t) (keyspace : string)
    (propertiesInfo : list PropertyInfo) (docInfo : jsval)
    (when : list PropertyInfo) (ifExists : jsval) (allowFilter : jsval)
    : GeneratedStatement :=
  let ttl := docInfo_field docInfo "ttl" in
  let primaryKeys := primaryKeys_of table in
  let '(filteredPropertiesInfo, (isIdempotent, isCounter)) :=
    filter_with_state (getUpdate_callback table) propertiesInfo (true, false) in
  {| (* the call passes [ttl] in seventh and [allowFilter] in eighth position;
        [_getUpdateQuery] names its seventh parameter [allowFilter] and its
        eighth [ttl] *)
     query := _getUpdateQuery (table.name table) keyspace primaryKeys
                filteredPropertiesInfo when ifExists ttl allowFilter;
     isIdempotent := isIdempotent && (length when =? 0) && negb (truthy ifExists);
     paramsGetter := _updateParamsGetter primaryKeys filteredPropertiesInfo when ttl;
     isCounter := Some isCounter |}.

Definition getDelete (table : table.t) (keyspace : string)
    (propertiesInfo : list PropertyInfo) (docInfo : jsval)
    (when : list PropertyInfo) (ifExists : jsval) : GeneratedStatement :=
  let deleteOnlyColumns := docInfo_field docInfo "deleteOnlyColumns" in
  let primaryKeys := primaryKeys_of table in
  let filteredPropertiesInfo := filter (column_defined table) propertiesInfo in
  {| query := _getDeleteQuery (table.name table) keyspace primaryKeys
                filteredPropertiesInfo when ifExists deleteOnlyColumns;
     paramsGetter := _deleteParamsGetter primaryKeys filteredPropertiesInfo when;
     isIdempotent := (length when =? 0) && negb (truthy ifExists);
     isCounter := None |}.

(** ** A small schema for examples

    Table [ks.t] with partition key [id], a text column [name], a counter
    column [count] and a list column [tags]. *)
Module example.
Definition id : column.t := column.mk "id" (column.mk_type (dataTypes.other "int")).
Definition name : column.t := column.mk "name" (column.mk_type (dataTypes.other "text")).
Definition count : column.t := column.mk "count" (column.mk_type dataTypes.counter).
Definition tags : column.t := column.mk "tags" (column.mk_type dataTypes.list).

Definition t : table.t :=
  table.mk "t"
    (<["id" := id]> (<["name" := name]> (<["count" := count]> (<["tags" := tags]> ∅))))
    [id] [].

Definition bind_id : PropertyInfo := mkProperty "id" "id" (VNumber 5) false.
Definition bind_name : PropertyInfo := mkProperty "name" "name" (VString "x") false.
Definition bind_unknown : PropertyInfo := mkProperty "extra" "extra" (VNumber 0) false.
Definition increment : jsval := QueryAssignment "+" (VNumber 1) false.
Definition bind_count : PropertyInfo := mkProperty "count" "count" increment false.

(** A table whose partition key is a (frozen) list column. *)
Definition keyed_by_tags : table.t :=
  table.mk "t" (<["tags" := tags]> (<["name" := name]> ∅)) [tags] [].
Definition bind_tags : PropertyInfo :=
  mkProperty "tags" "tags" (QueryAssignment "+" (VArray [VString "a"]) false) false.

(** A table with a column whose name is the empty string. *)
Definition with_unnamed_column : table.t :=
  table.mk "t"
    (<["id" := id]>
       (<[EmptyString := column.mk EmptyString (column.mk_type (dataTypes.other "text"))]> ∅))
    [id] [].
Definition bind_unnamed : PropertyInfo :=
  mkProperty "note" EmptyString (VString "x") false.

Definition document : jsval :=
  VObject [("id", VNumber 5); ("name", VString "x"); ("count", increment)].
Definition no_conversion : string → option (jsval → jsval) := λ _, None.
End example.

(** ** Vocabulary of the statements *)

(** The element expressions of a piece of script text. *)
Definition exprs (ts : list token) : list expr :=
  omap (λ t, match t with Expr e => Some e | Comma => None end) ts.

(** A non-empty list of expressions with a comma between any two: the text
    a join of non-empty pieces produces. *)
Inductive separated : list token → Prop :=
  | separated_one e : separated [Expr e]
  | separated_cons e ts : separated ts → separated (Expr e :: Comma :: ts).

(** The bindings that survive the schema filter, and their partition by
    primary-key membership. *)
Definition surviving (table : table.t) (propertiesInfo : list PropertyInfo)
    : list PropertyInfo :=
  filter (known_column table) propertiesInfo.

Definition mutated (table : table.t) (propertiesInfo : list PropertyInfo)
    : list PropertyInfo :=
  filter (λ p, columnName p ∉ primaryKeys_of table) (surviving table propertiesInfo).

Definition identifying (table : table.t) (propertiesInfo : list PropertyInfo)
    : list PropertyInfo :=
  filter (λ p, columnName p ∈ primaryKeys_of table) (surviving table propertiesInfo).

(** The binding's column exists and is counter-typed. *)
Definition targets_counter (table : table.t) (p : PropertyInfo) : bool :=
  match table.columnsByName table !! columnName p with
  | Some column => dataTypes.eqb (column.code (column.type column)) dataTypes.counter
  | None => false
  end.

(** The binding's column exists, is list-typed, and is bound to an
    assignment value. *)
Definition assigns_to_list (table : table.t) (p : PropertyInfo) : bool :=
  match table.columnsByName table !! columnName p with
  | Some column =>
      dataTypes.eqb (column.code (column.type column)) dataTypes.list
      && instanceof_QueryAssignment (value p)
  | None => false
  end.

(** Number of scalar values a bound value is made of: a composite
    comparison contributes those of its two children, anything else one. *)
Fixpoint leaves (v : jsval) : nat :=
  match v with
  | QueryOperatorChildren _ child0 child1 => leaves child0 + leaves child1
  | _ => 1
  end.

(** The operator symbols, connectors and signs a value carries. *)
Fixpoint symbols (v : jsval) : list string :=
  match v with
  | QueryOperatorChildren key child0 child1 => key :: symbols child0 ++ symbols child1
  | QueryOperator key _ _ => [key]
  | QueryAssignment sign _ _ => [sign]
  | _ => []
  end.

(** A piece of text without [?]: what identifiers and symbols are. *)
Definition plain (s : string) : Prop := placeholders s = 0.

Definition plain_binding (p : PropertyInfo) : Prop :=
  plain (columnName p) ∧ Forall plain (symbols (value p)).

(** No composite comparison value among the bound values. *)
Definition scalar_values (l : list PropertyInfo) : Prop :=
  Forall (λ p, leaves (value p) = 1) l.

(** A piece of script text without elisions: the elements of the array
    literal are its expressions. *)
Definition no_elision (ts : list token) : Prop :=
  elements ts = Some (Some <$> exprs ts).

(** The column-restricted delete as the claim words it: whenever a binding
    of a non-primary-key column survives, the text lists the names of these
    bindings between [DELETE] and the rest of the whole-row text. *)
Definition lists_restricted_columns (table : table.t) (keyspace : string)
    (propertiesInfo : list PropertyInfo) (docInfo : jsval) (when : list PropertyInfo)
    (ifExists : jsval) : Prop :=
  truthy (docInfo_field docInfo "deleteOnlyColumns") = true →
  let columns := map columnName (mutated table propertiesInfo) in
  columns ≠ [] →
  ∃ rest,
    query (getDelete table keyspace propertiesInfo VUndefined when ifExists)
      = "DELETE" +:+ rest
    ∧ query (getDelete table keyspace propertiesInfo docInfo when ifExists)
      = "DELETE" +:+ " " +:+ String.concat ", " columns +:+ rest.



(** The last sentence of the classification rule read with "mutated"
    bindings only: no condition, no counter or list assignment among the
    mutated bindings, hence idempotent and not a counter statement. *)
Definition flags_decided_by_mutated_bindings (table : table.t) (keyspace : string)
    (propertiesInfo : list PropertyInfo) (docInfo : jsval) (when : list PropertyInfo)
    (ifExists allowFilter : jsval) : Prop :=
  when = [] → is_true ifExists = false →
  (∀ p, p ∈ mutated table propertiesInfo → targets_counter table p = false) →
  (∀ p, p ∈ mutated table propertiesInfo → assigns_to_list table p = false) →
  let statement :=
    getUpdate table keyspace propertiesInfo docInfo when ifExists allowFilter in
  isIdempotent statement = true ∧ isCounter statement = Some false.

Definition between_1_and_9 : jsval :=
  QueryOperatorChildren "AND"
    (QueryOperator ">" (VNumber 1) false) (QueryOperator "<" (VNumber 9) false).


(** ** The domain on which the embedding is faithful

    Three places of the source rely on JavaScript behaviour that the
    embedding does not reproduce for every string; the statements about
    compiled getters and about the schema filter are made for names on
    which it does. *)

(** The source pastes property names between single quotes into the script
    text ([doc\['name'\]], [getFromModelFn('name')]) without escaping.  The
    text denotes the token list kept here when the name is made of printable
    ASCII characters other than the quote and the backslash. *)
Definition script_safe_char (c : ascii) : bool :=
  let n := nat_of_ascii c in
  (32 <=? n) && (n <=? 126) && negb (n =? 39) && negb (n =? 92).

Fixpoint script_safe (name : string) : bool :=
  match name with
  | EmptyString => true
  | String c rest => script_safe_char c && script_safe rest
  end.

Definition safe_property_names (l : list PropertyInfo) : Prop :=
  Forall (λ p, script_safe (propertyName p) = true) l.

(** Bindings whose column, respectively property, is not an inherited
    name: for them [known_column] is the test of the source, and a read of
    a missing property of a document yields [undefined]. *)
Definition own_column_names (l : list PropertyInfo) : Prop :=
  Forall (λ p, inherited (columnName p) = false) l.

Definition own_property_names (l : list PropertyInfo) : Prop :=
  Forall (λ p, inherited (propertyName p) = false) l.

(** ** Documents of a given shape *)

(** A run-time value has the shape of the value a statement was built
    from when it is wrapped the same way: a composite comparison where the
    shape has one, a scalar comparison where the shape has one (carrying an
    array where the shape is a membership test); under a literal or an
    assignment anything goes. *)
Fixpoint same_shape (shape w : jsval) : bool :=
  match shape with
  | QueryOperatorChildren _ shape0 shape1 =>
      match w with
      | QueryOperatorChildren _ w0 w1 => same_shape shape0 w0 && same_shape shape1 w1
      | _ => false
      end
  | QueryOperator _ _ isInOperator =>
      match w with
      | QueryOperator _ operand _ =>
          if isInOperator
          then match operand with VArray _ => true | _ => false end
          else true
      | _ => false
      end
  | _ => true
  end.

(** The values bound for a run-time value of a given shape, from left to
    right; [convert] is applied when the binding asks for conversion. *)
Fixpoint leaf_values (fromModelFn : bool) (convert : jsval → jsval)
    (shape w : jsval) : list jsval :=
  match shape with
  | QueryOperatorChildren _ shape0 shape1 =>
      match w with
      | QueryOperatorChildren _ w0 w1 =>
          leaf_values fromModelFn convert shape0 w0
          ++ leaf_values fromModelFn convert shape1 w1
      | _ => []
      end
  | QueryOperator _ _ isInOperator =>
      match w with
      | QueryOperator _ operand _ =>
          if isInOperator && fromModelFn
          then match operand with
               | VArray items => [VArray (convert <$> items)]
               | _ => []
               end
          else [if fromModelFn then convert operand else operand]
      | _ => []
      end
  | _ => [if fromModelFn then convert w else w]
  end.

(** The value bound by a SET assignment: the raw value of an assignment
    wrapper where the shape is one, the property's value otherwise. *)
Definition assigned_value (convert : jsval → jsval) (p : PropertyInfo) (w : jsval)
    : jsval :=
  let raw :=
    match value p, w with
    | QueryAssignment _ _ _, QueryAssignment _ operand _ => operand
    | _, _ => w
    end in
  if fromModel p then convert raw else raw.

(** The element expression compiled for a SET assignment. *)
Definition assignment_getter (p : PropertyInfo) : expr :=
  let valueGetter :=
    if instanceof_QueryAssignment (value p)
    then EMember (EProperty EDoc (propertyName p)) "value"
    else EProperty EDoc (propertyName p) in
  if fromModel p then _getMappingFunctionCall (propertyName p) valueGetter
  else valueGetter.

(** The binding is bound to a comparison value, scalar or composite. *)
Definition is_comparison (v : jsval) : bool :=
  match v with
  | QueryOperator _ _ _ | QueryOperatorChildren _ _ _ => true
  | _ => false
  end.

(** * Properties *)

(** ** The schema filter away from inherited names *)

Lemma column_defined_known (table : table.t) (p : PropertyInfo) :
  inherited (columnName p) = false → column_defined table p ↔ known_column table p.
Proof.
  intros Hown. unfold column_defined, has_member, known_column.
  rewrite Hown, orb_false_r. apply bool_decide_eq_true.
Qed.

Lemma filter_column_defined (table : table.t) (l : list PropertyInfo) :
  own_column_names l →
  filter (column_defined table) l = filter (known_column table) l.
Proof.
  induction 1 as [|p l Hp _ IH]; [done |].
  rewrite !filter_cons, IH.
  destruct (decide (column_defined table p)) as [Hd | Hd],
    (decide (known_column table p)) as [Hk | Hk]; try done.
  - exfalso. by apply Hk, column_defined_known.
  - exfalso. by apply Hd, column_defined_known.
Qed.

Lemma getInsert_own (table : table.t) (keyspace : string) (l : list PropertyInfo)
    (docInfo ifNotExists allowFilter : jsval) :
  own_column_names l →
  getInsert table keyspace l docInfo ifNotExists allowFilter
  = {| query := _getInsertQuery (table.name table) keyspace
                  (filter (known_column table) l) ifNotExists
                  (docInfo_field docInfo "ttl") allowFilter;
       paramsGetter := _insertParamsGetter (filter (known_column table) l) docInfo;
       isIdempotent := negb (truthy ifNotExists);
       isCounter := None |}.
Proof. intros Hown. unfold getInsert. by rewrite filter_column_defined. Qed.

Lemma getDelete_own (table : table.t) (keyspace : string) (l when : list PropertyInfo)
    (docInfo ifExists : jsval) :
  own_column_names l →
  getDelete table keyspace l docInfo when ifExists
  = {| query := _getDeleteQuery (table.name table) keyspace (primaryKeys_of table)
                  (filter (known_column table) l) when ifExists
                  (docInfo_field docInfo "deleteOnlyColumns");
       paramsGetter := _deleteParamsGetter (primaryKeys_of table)
                         (filter (known_column table) l) when;
       isIdempotent := (length when =? 0) && negb (truthy ifExists);
       isCounter := None |}.
Proof. intros Hown. unfold getDelete. by rewrite filter_column_defined. Qed.

(** ** Worked examples *)

(** Insert of [{id: 5}] into [ks.t]. *)
Example insert_example :
  let statement := getInsert example.t "ks" [example.bind_id] VUndefined VUndefined
                     VUndefined in
  query statement = "INSERT INTO ks.t (id) VALUES (?)"
  ∧ isIdempotent statement = true
  ∧ scriptText (paramsGetter statement)
    = "(function getParametersInsert(doc, docInfo, mappingInfo) {" +:+ newline
      +:+ "  return [doc['id']];" +:+ newline +:+ "})"
  ∧ runInThisContext (paramsGetter statement)
      (mkEnv (VObject [("id", VNumber 5)]) VUndefined example.no_conversion)
    = Some [VNumber 5].
Proof. vm_compute. repeat split. Qed.

(** Increment of a counter column. *)
Example update_counter_example :
  let statement := getUpdate example.t "ks" [example.bind_id; example.bind_count]
                     VUndefined [] VUndefined (VBool false) in
  query statement = "UPDATE ks.t SET count = count + ? WHERE id = ?"
  ∧ isIdempotent statement = false
  ∧ isCounter statement = Some true
  ∧ runInThisContext (paramsGetter statement)
      (mkEnv example.document VUndefined example.no_conversion)
    = Some [VNumber 1; VNumber 5].
Proof. vm_compute. repeat split. Qed.

(** The text of a compiled getter, with conversion and nested values. *)
Example select_script_example :
  let where_ := [mkProperty "age" "age" between_1_and_9 true;
                 mkProperty "tag" "tag" (QueryOperator "IN" (VArray []) true) true] in
  getSelect "t" "ks" where_ [example.bind_id] [("id", "ASC")] (VBool false) (VNumber 1)
  = "SELECT id FROM ks.t WHERE age > ? AND age < ? AND tag IN ? ORDER BY id ASC LIMIT ? ALLOW FILTERING"
  ∧ tokens_text (returned (selectParamsGetter where_ (VNumber 1)))
    = "mappingInfo.getFromModelFn('age')(doc['age'].value[0].value), mappingInfo.getFromModelFn('age')(doc['age'].value[1].value), doc['tag'].value.map(v => mappingInfo.getFromModelFn('tag')(v)), docInfo['limit']".
Proof. vm_compute. repeat split. Qed.

(** Separators next to an empty clause leave holes in the array literal:
    an insert whose bindings are all unknown, with a time-to-live, and an
    update without mutated binding. *)
Example elision_examples :
  let ρ := mkEnv example.document (VObject [("ttl", VNumber 60)]) example.no_conversion in
  let inserted := getInsert example.t "ks" [example.bind_unknown]
                    (VObject [("ttl", VNumber 60)]) VUndefined VUndefined in
  let updated := getUpdate example.t "ks" [example.bind_id] VUndefined [] VUndefined
                   VUndefined in
  query inserted = "INSERT INTO ks.t () VALUES () USING TTL ?"
  ∧ tokens_text (returned (paramsGetter inserted)) = ", docInfo['ttl']"
  ∧ runInThisContext (paramsGetter inserted) ρ = Some [VUndefined; VNumber 60]
  ∧ query updated = "UPDATE ks.t SET  WHERE id = ?"
  ∧ tokens_text (returned (paramsGetter updated)) = ", doc['id']"
  ∧ runInThisContext (paramsGetter updated) ρ = Some [VUndefined; VNumber 5].
Proof. vm_compute. repeat split. Qed.

(** [IF EXISTS] wins over a condition in the text; the getter still emits
    the values of the condition. *)
Example ifExists_with_condition_example :
  let condition := [mkProperty "name" "name" (VString "x") false] in
  let statement := getDelete example.t "ks" [example.bind_id] VUndefined condition
                     (VBool true) in
  query statement = "DELETE FROM ks.t WHERE id = ? IF EXISTS"
  ∧ tokens_text (returned (paramsGetter statement)) = "doc['id'], docInfo.when['name']".
Proof. vm_compute. repeat split. Qed.

(** ** Strings *)

Section string_facts.
Implicit Types (s t u sep suffix : string) (c a : ascii).

Lemma append_nil_l t : EmptyString +:+ t = t.
Proof. reflexivity. Qed.

Lemma append_cons a s t : String a s +:+ t = String a (s +:+ t).
Proof. reflexivity. Qed.

Lemma append_assoc s t u : (s +:+ t) +:+ u = s +:+ t +:+ u.
Proof.
  induction s as [|a s IH]; [done |].
  by rewrite !append_cons, IH.
Qed.


Lemma count_char_app c s t :
  count_char c (s +:+ t) = count_char c s + count_char c t.
Proof.
  induction s as [|a s IH]; [done |].
  rewrite append_cons. simpl. rewrite IH. lia.
Qed.

Lemma concat_cons2 sep s t (l : list string) :
  String.concat sep (s :: t :: l) = s +:+ sep +:+ String.concat sep (t :: l).
Proof. reflexivity. Qed.

Lemma count_char_concat c sep (l : list string) :
  count_char c (String.concat sep l)
  = sum_list (map (count_char c) l) + (length l - 1) * count_char c sep.
Proof.
  induction l as [|x [|y l] IH]; [simpl; lia | simpl; lia |].
  rewrite concat_cons2, !count_char_app, IH. simpl. lia.
Qed.

Lemma ends_with_app suffix s : ends_with suffix (s +:+ suffix) = true.
Proof.
  induction s as [|a s IH].
  - rewrite append_nil_l. destruct suffix; simpl; [done |].
    by rewrite Ascii.eqb_refl, String.eqb_refl.
  - rewrite append_cons. simpl. rewrite IH. apply orb_true_r.
Qed.

Lemma ends_with_spec suffix s :
  ends_with suffix s = true ↔ ∃ front, s = front +:+ suffix.
Proof.
  split.
  - induction s as [|a s IH]; cbn [ends_with].
    + rewrite orb_false_r. intros <-%String.eqb_eq. by exists EmptyString.
    + intros [Heq%String.eqb_eq | Hrest]%orb_true_iff.
      * exists EmptyString. by rewrite <- Heq.
      * destruct (IH Hrest) as [front ->]. by exists (String a front).
  - intros [front ->]. apply ends_with_app.
Qed.

Lemma concat_nonempty sep (l : list string) :
  l ≠ [] → Forall (λ x, x ≠ EmptyString) l → String.concat sep l ≠ EmptyString.
Proof.
  destruct l as [|x [|y l]]; [done | |]; intros _ Hall;
    apply Forall_cons in Hall as [Hx _]; [done |].
  rewrite concat_cons2. by destruct x.
Qed.
End string_facts.

(** ** Script fragments and their elements *)

Section fragments.
Implicit Types (a b ts : list token) (ρ : Env).

Lemma exprs_app a b : exprs (a ++ b) = exprs a ++ exprs b.
Proof. apply omap_app. Qed.

Lemma separated_app a b : separated a → separated b → separated (a ++ Comma :: b).
Proof.
  induction 1 as [e | e ts _ IH]; intros Hb; simpl.
  - by constructor.
  - constructor. by apply IH.
Qed.

Lemma separated_exprs_nonempty a : separated a → 0 < length (exprs a).
Proof. destruct 1; simpl; lia. Qed.

(** A separated piece followed by a comma: its expressions become the
    first elements of the array, whatever follows the comma. *)
Lemma elements_app_comma a b :
  separated a →
  elements (a ++ Comma :: b) = (λ rest, (Some <$> exprs a) ++ rest) <$> elements b.
Proof.
  induction 1 as [e | e ts _ IH].
  - simpl. by destruct (elements b).
  - change (elements ((Expr e :: Comma :: ts) ++ Comma :: b))
      with (cons (Some e) <$> elements (ts ++ Comma :: b)).
    rewrite IH. by destruct (elements b).
Qed.

Lemma elements_separated a : separated a → elements a = Some (Some <$> exprs a).
Proof.
  induction 1 as [e | e ts _ IH]; [done |].
  change (elements (Expr e :: Comma :: ts)) with (cons (Some e) <$> elements ts).
  by rewrite IH.
Qed.

Lemma join_tokens_cons2 a b (fragments : list (list token)) :
  join_tokens (a :: b :: fragments) = a ++ Comma :: join_tokens (b :: fragments).
Proof. reflexivity. Qed.

Lemma join_tokens_separated (fragments : list (list token)) :
  fragments ≠ [] → Forall separated fragments → separated (join_tokens fragments).
Proof.
  induction fragments as [|a [|b fragments] IH]; [done | |]; intros _ Hall.
  - by apply Forall_cons in Hall as [? _].
  - apply Forall_cons in Hall as [Ha Hall].
    rewrite join_tokens_cons2. apply separated_app; [done |]. by apply IH.
Qed.

Lemma exprs_join_tokens (fragments : list (list token)) :
  exprs (join_tokens fragments) = concat (exprs <$> fragments).
Proof.
  induction fragments as [|a [|b fragments] IH]; [done | |].
  - simpl. by rewrite app_nil_r.
  - rewrite join_tokens_cons2, exprs_app. cbn [exprs omap list_omap].
    fold (exprs (join_tokens (b :: fragments))). by rewrite IH.
Qed.

Lemma _valueGetterSingle_separated prefix propName v fromModelFn :
  separated (_valueGetterSingle prefix propName v fromModelFn).
Proof.
  revert prefix.
  induction v as [| | | | | | | key operand _ isIn | key v0 IH0 v1 IH1 | ];
    intros prefix; simpl;
    try (destruct fromModelFn; constructor).
  - destruct isIn, fromModelFn; constructor.
  - apply separated_app; [apply IH0 | apply IH1].
Qed.

Lemma mapM_option_app {A B} (f : A → option B) (l k : list A) :
  mapM f (l ++ k) = (x ← mapM f l; y ← mapM f k; Some (x ++ y)).
Proof.
  induction l as [|a l IH]; simpl.
  - by destruct (mapM f k).
  - destruct (f a); simpl; [|done]. rewrite IH.
    destruct (mapM f l); simpl; [|done]. by destruct (mapM f k).
Qed.

Lemma run_tokens_separated a ρ :
  separated a → run_tokens a ρ = mapM (eval ρ) (exprs a).
Proof.
  intros Ha. unfold run_tokens. rewrite (elements_separated a Ha). simpl.
  unfold eval_elements. generalize (exprs a) as es.
  induction es as [|e es IH]; [done |].
  rewrite fmap_cons. cbn [mapM eval_element]. by rewrite IH.
Qed.

Lemma run_tokens_app_comma a b ρ :
  separated a → separated b →
  run_tokens (a ++ Comma :: b) ρ
  = (x ← run_tokens a ρ; y ← run_tokens b ρ; Some (x ++ y)).
Proof.
  intros Ha Hb.
  rewrite !run_tokens_separated by auto using separated_app.
  rewrite exprs_app. cbn [exprs omap list_omap]. fold (exprs b).
  apply mapM_option_app.
Qed.
End fragments.

(** ** Composite comparison values *)

(** ** Membership values with conversion *)

Lemma run_tokens_single (e : expr) (ρ : Env) :
  run_tokens [Expr e] ρ = (v ← eval ρ e; Some [v]).
Proof. unfold run_tokens. simpl. by destruct (eval ρ e). Qed.

Lemma eval_EMember (ρ : Env) (e : expr) (name : string) :
  eval ρ (EMember e name) = (v ← eval ρ e; get_member v name).
Proof. reflexivity. Qed.

Lemma eval_EMapFromModel (ρ : Env) (e : expr) (propName : string) :
  eval ρ (EMapFromModel e propName)
  = (v ← eval ρ e;
     match v with
     | VArray items =>
         VArray <$> mapM (λ x, f ← getFromModelFn ρ propName; Some (f x)) items
     | _ => None
     end).
Proof. reflexivity. Qed.

Lemma mapM_conversion (lookup : option (jsval → jsval)) (f : jsval → jsval)
    (items : list jsval) :
  lookup = Some f →
  mapM (λ x, g ← lookup; Some (g x)) items = Some (f <$> items).
Proof.
  intros ->. induction items as [|x items IH]; [done |].
  cbn [mapM]. rewrite IH. reflexivity.
Qed.

(** ** DELETE: column-restricted form *)

Lemma filter_known_columns_nonempty (table : table.t) (l : list PropertyInfo) :
  table.columnsByName table !! EmptyString = None →
  Forall (λ c, c ≠ EmptyString) (map columnName (filter (known_column table) l)).
Proof.
  intros Hschema. apply Forall_forall. intros c Hc.
  apply list_elem_of_fmap in Hc as (p & -> & Hp).
  apply list_elem_of_filter in Hp as [[col Hcol] _].
  intros Hempty. rewrite Hempty in Hcol. congruence.
Qed.

(** C7, as the code has it.  With the column-restricted option set, the
    code joins the column names of the surviving non-primary-key bindings
    and tests the joined text: when it is not empty the query lists exactly
    these columns, in the order of the bindings, between [DELETE] and
    [FROM]; when it is empty the text is the whole-row text, the one
    produced without the option.  The joined text is empty when no such
    binding survives, and not empty when one survives and the column names
    are not empty.  No binding names a column inherited from
    [Object.prototype]. *)
Theorem getDelete_deleteOnlyColumns
    (table : table.t) (keyspace : string) (propertiesInfo : list PropertyInfo)
    (docInfo : jsval) (when : list PropertyInfo) (ifExists : jsval) :
  own_column_names propertiesInfo →
  truthy (docInfo_field docInfo "deleteOnlyColumns") = true →
  let columns := map columnName (mutated table propertiesInfo) in
  let listed := String.concat ", " columns in
  (∃ rest,
     query (getDelete table keyspace propertiesInfo VUndefined when ifExists)
       = "DELETE" +:+ " FROM " +:+ rest
     ∧ (listed ≠ EmptyString →
        query (getDelete table keyspace propertiesInfo docInfo when ifExists)
          = "DELETE" +:+ " " +:+ listed +:+ " FROM " +:+ rest)
     ∧ (listed = EmptyString →
        query (getDelete table keyspace propertiesInfo docInfo when ifExists)
          = query (getDelete table keyspace propertiesInfo VUndefined when ifExists)))
  ∧ (columns = [] → listed = EmptyString)
  ∧ (columns ≠ [] → Forall (λ c, c ≠ EmptyString) columns → listed ≠ EmptyString).
Proof.
  intros Hown Hoption columns listed. split; [| split].
  - rewrite !getDelete_own by done. cbn [query]. unfold _getDeleteQuery.
    fold (surviving table propertiesInfo). fold (mutated table propertiesInfo).
    fold columns. fold listed. rewrite Hoption.
    change (docInfo_field VUndefined "deleteOnlyColumns") with VUndefined.
    cbn [truthy].
    set (ids := String.concat " AND " _).
    destruct (String.eqb listed EmptyString) eqn:Hlisted.
    + apply String.eqb_eq in Hlisted. cbn [negb].
      destruct (is_true ifExists); [| destruct (0 <? length when)];
        (eexists; split; [| split];
         [ rewrite ?append_assoc; reflexivity
         | intros Hne; by destruct Hne
         | intros _; reflexivity ]).
    + apply String.eqb_neq in Hlisted. cbn [negb].
      destruct (is_true ifExists); [| destruct (0 <? length when)];
        (eexists; split; [| split];
         [ rewrite ?append_assoc; reflexivity
         | intros _; rewrite ?append_assoc; reflexivity
         | intros Heq; by destruct Hlisted ]).
  - subst listed. by intros ->.
  - intros Hcolumns Hnames. by apply concat_nonempty.
Qed.

Lemma getDelete_deleteOnlyColumns_witness :
  ∃ rest,
    query (getDelete example.t "ks" [example.bind_id; example.bind_name]
             VUndefined [] VUndefined)
      = "DELETE" +:+ " FROM " +:+ rest
    ∧ query (getDelete example.t "ks" [example.bind_id; example.bind_name]
               (VObject [("deleteOnlyColumns", VBool true)]) [] VUndefined)
      = "DELETE" +:+ " " +:+ "name" +:+ " FROM " +:+ rest.
Proof.
  destruct (getDelete_deleteOnlyColumns example.t "ks"
              [example.bind_id; example.bind_name]
              (VObject [("deleteOnlyColumns", VBool true)]) [] VUndefined)
    as ((rest & Hwhole & Hcolumns & _) & _ & _);
    [repeat constructor | reflexivity |].
  exists rest. split; [exact Hwhole |].
  apply Hcolumns. vm_compute. discriminate.
Defined.

(** The claim as worded fails for a surviving binding whose column name is
    the empty string: the joined list is empty, and the text is the
    whole-row text although a non-primary-key binding survives. *)
Lemma getDelete_deleteOnlyColumns_counterexample :
  ¬ lists_restricted_columns example.with_unnamed_column "ks"
      [example.bind_id; example.bind_unnamed]
      (VObject [("deleteOnlyColumns", VBool true)]) [] VUndefined.
Proof.
  intros Hclaim. destruct Hclaim as (rest & Hwhole & Hrestricted).
  - reflexivity.
  - by vm_compute.
  - assert (rest = " FROM ks.t WHERE id = ?") as ->
      by (vm_compute in Hwhole; congruence).
    vm_compute in Hrestricted. discriminate.
Qed.

(** ** UPDATE: the schema filter and the flags *)

(** The filter callback of [getUpdate] keeps the bindings of known columns
    and lowers the flags as it goes. *)
Lemma getUpdate_filter (table : table.t) (propertiesInfo : list PropertyInfo)
    (idempotent counter : bool) :
  filter_with_state (getUpdate_callback table) propertiesInfo (idempotent, counter)
  = (surviving table propertiesInfo,
     (idempotent
      && negb (existsb (λ p, assigns_to_list table p || targets_counter table p)
                 propertiesInfo),
      counter || existsb (targets_counter table) propertiesInfo)).
Proof.
  revert idempotent counter.
  induction propertiesInfo as [|p l IH]; intros idempotent counter.
  - simpl. by rewrite andb_true_r, orb_false_r.
  - cbn [filter_with_state existsb]. unfold surviving. rewrite filter_cons.
    unfold getUpdate_callback at 1, assigns_to_list at 1, targets_counter at 1 3.
    destruct (decide (known_column table p)) as [[column Hcolumn] | Hunknown].
    + rewrite Hcolumn.
      destruct (column.code (column.type column)) as [| |tag] eqn:Htype; cbn [dataTypes.eqb andb orb];
        [destruct (instanceof_QueryAssignment (value p)) | |];
        rewrite IH; unfold surviving; cbn [negb orb andb snd];
        rewrite ?andb_false_r, ?andb_true_r, ?orb_true_r, ?orb_false_r; reflexivity.
    + destruct (table.columnsByName table !! columnName p) as [column|] eqn:Hcolumn.
      { exfalso. apply Hunknown. unfold known_column. rewrite Hcolumn. eauto. }
      rewrite IH. reflexivity.
Qed.

Lemma getUpdate_unfold (table : table.t) (keyspace : string)
    (propertiesInfo : list PropertyInfo) (docInfo : jsval) (when : list PropertyInfo)
    (ifExists allowFilter : jsval) :
  getUpdate table keyspace propertiesInfo docInfo when ifExists allowFilter
  = {| query := _getUpdateQuery (table.name table) keyspace (primaryKeys_of table)
                  (surviving table propertiesInfo) when ifExists
                  (docInfo_field docInfo "ttl") allowFilter;
       isIdempotent :=
         negb (existsb (λ p, assigns_to_list table p || targets_counter table p)
                 propertiesInfo)
         && (length when =? 0) && negb (truthy ifExists);
       paramsGetter := _updateParamsGetter (primaryKeys_of table)
                         (surviving table propertiesInfo) when
                         (docInfo_field docInfo "ttl");
       isCounter := Some (existsb (targets_counter table) propertiesInfo) |}.
Proof. unfold getUpdate. rewrite getUpdate_filter. reflexivity. Qed.

Lemma existsb_false_iff {A} (f : A → bool) (l : list A) :
  existsb f l = false ↔ ∀ x, x ∈ l → f x = false.
Proof.
  induction l as [|a l IH]; simpl.
  - split; [intros _ x Hx; by apply elem_of_nil in Hx | done].
  - rewrite orb_false_iff, IH. split.
    + intros [Ha Hl] x [->|Hx]%elem_of_cons; auto.
    + intros H. split; [apply H; left | intros x Hx; apply H; by right].
Qed.

Lemma existsb_true_intro {A} (f : A → bool) (l : list A) (x : A) :
  x ∈ l → f x = true → existsb f l = true.
Proof.
  intros Hx Hf. apply existsb_exists. exists x. split; [|done].
  by apply list_elem_of_In.
Qed.

(** C4, as the code has it.  A non-empty [when] or a true [ifExists] makes
    the statement non-idempotent whatever the columns are; a binding of a
    counter column makes it non-idempotent and a counter statement; a binding
    of a list column to an assignment value makes it non-idempotent.  The
    classification runs over every binding that survives the schema filter,
    identifying (primary-key) bindings included: only when no surviving
    binding at all is of these two kinds, and there is no condition, is the
    statement idempotent and not a counter statement. *)
Theorem getUpdate_flags
    (table : table.t) (keyspace : string) (propertiesInfo : list PropertyInfo)
    (docInfo : jsval) (when : list PropertyInfo) (ifExists allowFilter : jsval) :
  let statement :=
    getUpdate table keyspace propertiesInfo docInfo when ifExists allowFilter in
  (when ≠ [] ∨ truthy ifExists = true → isIdempotent statement = false)
  ∧ (∀ p, p ∈ propertiesInfo → targets_counter table p = true →
       isIdempotent statement = false ∧ isCounter statement = Some true)
  ∧ (∀ p, p ∈ propertiesInfo → assigns_to_list table p = true →
       isIdempotent statement = false)
  ∧ (when = [] → truthy ifExists = false →
     (∀ p, p ∈ surviving table propertiesInfo → targets_counter table p = false) →
     (∀ p, p ∈ surviving table propertiesInfo → assigns_to_list table p = false) →
     isIdempotent statement = true ∧ isCounter statement = Some false).
Proof.
  intros statement. subst statement. rewrite getUpdate_unfold. cbn [isIdempotent isCounter].
  split; [| split; [| split]].
  - intros [Hwhen | ->].
    + destruct when; [done |]. cbn [length Nat.eqb]. by rewrite andb_false_r.
    + by rewrite andb_false_r.
  - intros p Hp Hcounter.
    rewrite (existsb_true_intro _ _ p Hp) by (rewrite Hcounter; apply orb_true_r).
    by rewrite (existsb_true_intro _ _ p Hp Hcounter).
  - intros p Hp Hlist.
    by rewrite (existsb_true_intro _ _ p Hp) by (by rewrite Hlist).
  - intros -> -> Hcounter Hlist.
    assert (∀ (f : PropertyInfo → bool),
              (∀ p, f p = true → known_column table p) →
              (∀ p, p ∈ surviving table propertiesInfo → f p = false) →
              existsb f propertiesInfo = false) as Hall.
    { intros f Hknown Hf. apply existsb_false_iff. intros p Hp.
      destruct (f p) eqn:Hfp; [| done].
      rewrite <- Hfp. apply Hf, list_elem_of_filter. auto. }
    assert (∀ p, targets_counter table p = true → known_column table p) as Hk1.
    { intros p. unfold targets_counter, known_column.
      destruct (_ !! _); [eauto | done]. }
    assert (∀ p, assigns_to_list table p = true → known_column table p) as Hk2.
    { intros p. unfold assigns_to_list, known_column.
      destruct (_ !! _); [eauto | done]. }
    rewrite (Hall (targets_counter table)) by auto.
    rewrite (Hall (λ p, assigns_to_list table p || targets_counter table p)).
    + done.
    + intros p [?|?]%orb_true_iff; auto.
    + intros p Hp. by rewrite Hcounter, Hlist.
Qed.

Lemma getUpdate_flags_witness :
  let statement :=
    getUpdate example.t "ks" [example.bind_id; example.bind_count] VUndefined []
      VUndefined (VBool false) in
  isIdempotent statement = false ∧ isCounter statement = Some true
  ∧ query statement = "UPDATE ks.t SET count = count + ? WHERE id = ?".
Proof.
  intros statement.
  destruct (getUpdate_flags example.t "ks" [example.bind_id; example.bind_count]
              VUndefined [] VUndefined (VBool false)) as (_ & Hcounter & _ & _).
  destruct (Hcounter example.bind_count) as [Hidempotent HisCounter].
  - apply elem_of_cons. right. apply elem_of_cons. by left.
  - reflexivity.
  - split; [exact Hidempotent | split; [exact HisCounter | reflexivity]].
Defined.

(** The rule fails when read with mutated bindings only: an identifying
    binding of a list-typed key column that carries an assignment value
    makes the statement non-idempotent, although no mutated binding is of
    either kind and there is no condition. *)
Lemma getUpdate_flags_counterexample :
  ¬ flags_decided_by_mutated_bindings example.keyed_by_tags "ks"
      [example.bind_tags; example.bind_name] VUndefined [] (VBool false) (VBool false).
Proof.
  intros Hclaim.
  assert (mutated example.keyed_by_tags [example.bind_tags; example.bind_name]
          = [example.bind_name]) as Hmutated by reflexivity.
  destruct Hclaim as [Hidempotent _]; [done | done | | |].
  - rewrite Hmutated. intros p ->%list_elem_of_singleton. reflexivity.
  - rewrite Hmutated. intros p ->%list_elem_of_singleton. reflexivity.
  - vm_compute in Hidempotent. discriminate.
Qed.

(** ** The schema filter is shared by text and parameters *)

Lemma surviving_without_unknown (table : table.t) (l1 l2 : list PropertyInfo)
    (p : PropertyInfo) :
  ¬ known_column table p →
  surviving table (l1 ++ p :: l2) = surviving table (l1 ++ l2).
Proof.
  intros Hunknown. unfold surviving.
  by rewrite !filter_app, filter_cons_False.
Qed.

Lemma unknown_column_flags (table : table.t) (p : PropertyInfo) :
  ¬ known_column table p →
  targets_counter table p = false ∧ assigns_to_list table p = false.
Proof.
  unfold known_column, targets_counter, assigns_to_list. intros Hunknown.
  destruct (table.columnsByName table !! columnName p); [|done].
  exfalso. eauto.
Qed.

(** C6 fails on the code.  The schema filter of the source keeps a binding
    when [table.columnsByName\[columnName\] !== undefined]; on the plain
    object that holds the columns this is also true of a name inherited from
    [Object.prototype].  A binding of column [toString], absent from the
    schema, passes the test: [getInsert] and [getDelete] keep it in the text
    and in the getter.  ([getUpdate] goes on to read [column.type.code] of
    the inherited member and throws.) *)
Theorem inherited_column_name_passes_filter :
  let p := mkProperty "label" "toString" (VString "x") false in
  let inserted := getInsert example.t "ks" [example.bind_id; p] VUndefined VUndefined
                    VUndefined in
  let deleted := getDelete example.t "ks" [example.bind_id; p]
                   (VObject [("deleteOnlyColumns", VBool true)]) [] VUndefined in
  table.columnsByName example.t !! columnName p = None
  ∧ column_defined example.t p
  ∧ query inserted = "INSERT INTO ks.t (id, toString) VALUES (?, ?)"
  ∧ tokens_text (returned (paramsGetter inserted)) = "doc['id'], doc['label']"
  ∧ query deleted = "DELETE toString FROM ks.t WHERE id = ?".
Proof. vm_compute. repeat split. Qed.

(** Away from inherited names the filter is the one the claim describes.
    Insert, update and delete hand one and the same filtered list to
    the text builder and to the parameter compiler.  The list holds exactly
    the bindings of known columns, in the order the caller gave them, so a
    binding of an unknown column leaves no trace: the whole result (text,
    parameter getter, flags) is the one obtained without that binding. *)
Theorem unknown_columns_dropped_from_text_and_parameters
    (table : table.t) (keyspace : string) (propertiesInfo : list PropertyInfo)
    (docInfo : jsval) (when : list PropertyInfo)
    (ifNotExists ifExists allowFilter : jsval) :
  let kept := surviving table propertiesInfo in
  let ttl := docInfo_field docInfo "ttl" in
  let inserted := getInsert table keyspace propertiesInfo docInfo ifNotExists allowFilter in
  let updated := getUpdate table keyspace propertiesInfo docInfo when ifExists allowFilter in
  let deleted := getDelete table keyspace propertiesInfo docInfo when ifExists in
  own_column_names propertiesInfo →
  kept `sublist_of` propertiesInfo
  ∧ mutated table propertiesInfo `sublist_of` kept
  ∧ identifying table propertiesInfo `sublist_of` kept
  ∧ (∀ p, p ∈ kept ↔ p ∈ propertiesInfo ∧ known_column table p)
  ∧ (query inserted
       = _getInsertQuery (table.name table) keyspace kept ifNotExists ttl allowFilter
     ∧ paramsGetter inserted = _insertParamsGetter kept docInfo)
  ∧ (query updated
       = _getUpdateQuery (table.name table) keyspace (primaryKeys_of table) kept when
           ifExists ttl allowFilter
     ∧ paramsGetter updated = _updateParamsGetter (primaryKeys_of table) kept when ttl)
  ∧ (query deleted
       = _getDeleteQuery (table.name table) keyspace (primaryKeys_of table) kept when
           ifExists (docInfo_field docInfo "deleteOnlyColumns")
     ∧ paramsGetter deleted = _deleteParamsGetter (primaryKeys_of table) kept when)
  ∧ (∀ l1 p l2,
       propertiesInfo = l1 ++ p :: l2 → ¬ known_column table p →
       inserted = getInsert table keyspace (l1 ++ l2) docInfo ifNotExists allowFilter
       ∧ updated = getUpdate table keyspace (l1 ++ l2) docInfo when ifExists allowFilter
       ∧ deleted = getDelete table keyspace (l1 ++ l2) docInfo when ifExists).
Proof.
  intros kept ttl inserted updated deleted Hown.
  assert (∀ l1 p l2, propertiesInfo = l1 ++ p :: l2 → own_column_names (l1 ++ l2))
    as Hrest.
  { intros l1 p l2 ->. apply Forall_app in Hown as [H1 [_ H2]%Forall_cons].
    by apply Forall_app. }
  subst inserted deleted. rewrite getInsert_own, getDelete_own by done.
  split; [apply sublist_filter |].
  split; [apply sublist_filter |].
  split; [apply sublist_filter |].
  split.
  { intros p. subst kept. unfold surviving. rewrite list_elem_of_filter. tauto. }
  split; [by split |].
  split; [subst updated; rewrite getUpdate_unfold; by split |].
  split; [by split |].
  intros l1 p l2 Hsplit Hunknown. specialize (Hrest l1 p l2 Hsplit). subst propertiesInfo.
  destruct (unknown_column_flags table p Hunknown) as [Hcounter Hlist].
  subst updated. rewrite !getUpdate_unfold.
  rewrite getInsert_own, getDelete_own by done.
  fold (surviving table (l1 ++ p :: l2)). fold (surviving table (l1 ++ l2)).
  rewrite (surviving_without_unknown table l1 l2 p Hunknown).
  rewrite !existsb_app. cbn [existsb]. rewrite Hcounter, Hlist. cbn [orb].
  by repeat split.
Qed.

Lemma unknown_columns_dropped_witness :
  getInsert example.t "ks" [example.bind_id; example.bind_unknown; example.bind_name]
    VUndefined VUndefined VUndefined
  = getInsert example.t "ks" [example.bind_id; example.bind_name]
      VUndefined VUndefined VUndefined
  ∧ query (getInsert example.t "ks"
             [example.bind_id; example.bind_unknown; example.bind_name]
             VUndefined VUndefined VUndefined)
    = "INSERT INTO ks.t (id, name) VALUES (?, ?)".
Proof.
  destruct (unknown_columns_dropped_from_text_and_parameters example.t "ks"
              [example.bind_id; example.bind_unknown; example.bind_name]
              VUndefined [] VUndefined VUndefined VUndefined)
    as (_ & _ & _ & _ & _ & _ & _ & Hdropped); [repeat constructor |].
  destruct (Hdropped [example.bind_id] example.bind_unknown [example.bind_name])
    as (Hinsert & _ & _).
  - reflexivity.
  - intros [column Hcolumn]. vm_compute in Hcolumn. discriminate.
  - split; [exact Hinsert | rewrite Hinsert; vm_compute; reflexivity].
Defined.

(** ** SELECT keeps every binding *)





(** ** UPDATE: the time-to-live clause *)

(** C2 fails on the code.  [getUpdate] passes the time-to-live in the
    position of [_getUpdateQuery]'s [allowFilter] parameter and the flag in
    the position of its [ttl] parameter, so with a numeric time-to-live and
    a Boolean flag the text has no [USING TTL ?] clause, while the parameter
    getter does emit the time-to-live first: two placeholders, three
    parameters. *)
Theorem getUpdate_ttl_clause_missing :
  let docInfo := VObject [("ttl", VNumber 60)] in
  let statement :=
    getUpdate example.t "ks" [example.bind_id; example.bind_name] docInfo []
      VUndefined (VBool false) in
  query statement = "UPDATE ks.t SET name = ? WHERE id = ?"
  ∧ includes "USING TTL ?" (query statement) = false
  ∧ tokens_text (returned (paramsGetter statement))
    = "docInfo['ttl'], doc['name'], doc['id']"
  ∧ runInThisContext (paramsGetter statement)
      (mkEnv example.document docInfo example.no_conversion)
    = Some [VNumber 60; VString "x"; VNumber 5].
Proof. vm_compute. repeat split. Qed.

(** The clause follows the flag instead: it is rendered exactly when the
    [allowFilter] argument is a number. *)
Lemma getUpdate_ttl_clause_follows_allowFilter
    (table : table.t) (keyspace : string) (propertiesInfo : list PropertyInfo)
    (docInfo : jsval) (when : list PropertyInfo) (ifExists allowFilter : jsval) :
  ∃ rest,
    query (getUpdate table keyspace propertiesInfo docInfo when ifExists allowFilter)
    = "UPDATE " +:+ keyspace +:+ "." +:+ table.name table +:+ " "
      +:+ (if typeof_number allowFilter then "USING TTL ? " else EmptyString) +:+ "SET " +:+ rest.
Proof.
  rewrite getUpdate_unfold. cbn [query]. unfold _getUpdateQuery.
  set (assignments := String.concat ", " _).
  set (keys := String.concat " AND " _).
  destruct (typeof_number allowFilter), (is_true ifExists), (0 <? length when);
    eexists; rewrite ?append_assoc, ?append_nil_l; reflexivity.
Qed.

(** ** Counting placeholders *)

Ltac count_literals :=
  repeat match goal with
         | |- context [placeholders (String ?a ?s)] =>
             let n := eval vm_compute in (placeholders (String a s)) in
             change (placeholders (String a s)) with n
         end.

Section counting.
Implicit Types (s t : string) (l : list PropertyInfo) (p : PropertyInfo).

Lemma placeholders_app s t : placeholders (s +:+ t) = placeholders s + placeholders t.
Proof. apply count_char_app. Qed.

Lemma placeholders_concat sep {A} (f : A → string) (items : list A) :
  plain sep →
  placeholders (String.concat sep (map f items))
  = sum_list (map (λ x, placeholders (f x)) items).
Proof.
  intros Hsep. unfold placeholders. rewrite count_char_concat.
  unfold plain, placeholders in Hsep. rewrite Hsep, Nat.mul_0_r, Nat.add_0_r.
  by rewrite map_map.
Qed.

Lemma sum_list_constant {A} (f : A → nat) (n : nat) (items : list A) :
  Forall (λ x, f x = n) items → sum_list (map f items) = n * length items.
Proof.
  induction 1 as [|x items Hx _ IH]; simpl; [lia |]. rewrite Hx, IH. lia.
Qed.

Lemma sum_list_ext {A} (f g : A → nat) (items : list A) :
  Forall (λ x, f x = g x) items → sum_list (map f items) = sum_list (map g items).
Proof. induction 1 as [|x items Hx _ IH]; simpl; [done |]. by rewrite Hx, IH. Qed.

Lemma placeholders_single_condition (column : string) (v : jsval) :
  plain column → Forall plain (symbols v) →
  placeholders (_getSingleCondition column v) = leaves v.
Proof.
  unfold plain. intros Hcolumn.
  induction v as [| | | | | | | key operand _ isIn | key v0 IH0 v1 IH1 | ];
    cbn [_getSingleCondition symbols leaves]; intros Hsymbols;
    rewrite ?placeholders_app, ?Hcolumn; count_literals; try done.
  - apply Forall_cons in Hsymbols as [Hkey _]. rewrite Hkey. done.
  - apply Forall_cons in Hsymbols as [Hkey [H0 H1]%Forall_app].
    rewrite Hkey, IH0, IH1 by done. lia.
Qed.

Lemma placeholders_conditions l :
  Forall plain_binding l →
  placeholders (_getConditionWithOperators l) = sum_list (map (λ p, leaves (value p)) l).
Proof.
  intros Hplain. unfold _getConditionWithOperators.
  rewrite placeholders_concat by reflexivity.
  apply sum_list_ext. eapply Forall_impl; [exact Hplain |].
  intros p [Hcolumn Hsymbols]. by apply placeholders_single_condition.
Qed.

Lemma placeholders_names {A} (sep : string) (f : A → string) (items : list A) :
  plain sep → Forall (λ x, plain (f x)) items →
  placeholders (String.concat sep (map f items)) = 0.
Proof.
  intros Hsep Hitems. rewrite placeholders_concat by done.
  rewrite (sum_list_constant _ 0) by done. lia.
Qed.

Lemma placeholders_equalities (sep : string) l :
  plain sep → Forall plain_binding l →
  placeholders (String.concat sep (map (λ p, columnName p +:+ " = ?") l)) = length l.
Proof.
  intros Hsep Hplain. rewrite placeholders_concat by done.
  rewrite (sum_list_constant _ 1); [lia |].
  eapply Forall_impl; [exact Hplain |]. intros p [Hcolumn _].
  rewrite placeholders_app, Hcolumn. reflexivity.
Qed.

Lemma placeholders_assignments l :
  Forall plain_binding l →
  placeholders
    (String.concat ", "
       (map (λ p,
               match value p with
               | QueryAssignment sign _ inverted =>
                   if inverted
                   then columnName p +:+ " = ? " +:+ sign +:+ " " +:+ columnName p
                   else columnName p +:+ " = " +:+ columnName p +:+ " " +:+ sign +:+ " ?"
               | _ => columnName p +:+ " = ?"
               end) l))
  = length l.
Proof.
  intros Hplain. rewrite placeholders_concat by reflexivity.
  rewrite (sum_list_constant _ 1); [lia |].
  eapply Forall_impl; [exact Hplain |]. intros p [Hcolumn Hsymbols].
  unfold plain in Hcolumn.
  destruct (value p) as [| | | | | | | | | sign operand inverted];
    cbn [symbols] in Hsymbols;
    rewrite ?placeholders_app, ?Hcolumn; try reflexivity.
  apply Forall_cons in Hsymbols as [Hsign _]. unfold plain in Hsign.
  destruct inverted; rewrite !placeholders_app, Hcolumn, Hsign; reflexivity.
Qed.


Lemma sum_leaves_scalar l :
  scalar_values l → sum_list (map (λ p, leaves (value p)) l) = length l.
Proof. intros Hscalar. rewrite (sum_list_constant _ 1) by done. lia. Qed.
End counting.

(** ** Counting parameters *)

Section parameters.
Implicit Types (a b ts : list token) (l : list PropertyInfo).

Lemma no_elision_nil : no_elision [].
Proof. reflexivity. Qed.

Lemma no_elision_separated ts : separated ts → no_elision ts.
Proof. apply elements_separated. Qed.

Lemma no_elision_app_comma a b :
  separated a → no_elision b → no_elision (a ++ Comma :: b).
Proof.
  unfold no_elision. intros Ha Hb.
  rewrite elements_app_comma, Hb, exprs_app by done.
  cbn [exprs omap list_omap]. fold (exprs b). by rewrite fmap_app.
Qed.


Lemma length_exprs_single prefix propName v fromModelFn :
  length (exprs (_valueGetterSingle prefix propName v fromModelFn)) = leaves v.
Proof.
  revert prefix.
  induction v as [| | | | | | | key operand _ isIn | key v0 IH0 v1 IH1 | ];
    intros prefix; cbn [_valueGetterSingle leaves];
    try (by destruct fromModelFn).
  - by destruct isIn, fromModelFn.
  - rewrite exprs_app. cbn [exprs omap list_omap].
    fold (exprs (_valueGetterSingle (EIndex (EMember prefix "value") 1) propName v1
                   fromModelFn)).
    by rewrite length_app, IH0, IH1.
Qed.

Lemma length_concat_exprs {A} (f : A → list token) (n : A → nat) (items : list A) :
  (∀ x, length (exprs (f x)) = n x) →
  length (concat (exprs <$> (f <$> items))) = sum_list (map n items).
Proof.
  intros Hf. induction items as [|x items IH]; [done |].
  rewrite !fmap_cons. cbn [concat map sum_list sum_list_with].
  rewrite length_app, Hf, IH. done.
Qed.

Lemma _valueGetterExpression_separated l objectName :
  l ≠ [] → separated (_valueGetterExpression l objectName).
Proof.
  intros Hl. apply join_tokens_separated.
  - by destruct l.
  - apply Forall_forall. intros ts (p & -> & _)%list_elem_of_fmap.
    apply _valueGetterSingle_separated.
Qed.

Lemma _valueGetterExpression_no_elision l objectName :
  no_elision (_valueGetterExpression l objectName).
Proof.
  destruct l as [|p l]; [apply no_elision_nil |].
  by apply no_elision_separated, _valueGetterExpression_separated.
Qed.

Lemma length_exprs_valueGetterExpression l objectName :
  length (exprs (_valueGetterExpression l objectName))
  = sum_list (map (λ p, leaves (value p)) l).
Proof.
  unfold _valueGetterExpression. rewrite exprs_join_tokens.
  change (map ?f l) with (f <$> l) at 1.
  apply length_concat_exprs. intros p. apply length_exprs_single.
Qed.

Lemma _assignmentGetterExpression_separated l prefix :
  l ≠ [] → separated (_assignmentGetterExpression l prefix).
Proof.
  intros Hl. apply join_tokens_separated.
  - by destruct l.
  - apply Forall_forall. intros ts (p & -> & _)%list_elem_of_fmap.
    destruct (fromModel p); constructor.
Qed.

Lemma length_exprs_assignmentGetterExpression l prefix :
  length (exprs (_assignmentGetterExpression l prefix)) = length l.
Proof.
  unfold _assignmentGetterExpression. rewrite exprs_join_tokens.
  change (map ?f l) with (f <$> l) at 1.
  rewrite (length_concat_exprs _ (λ _, 1)).
  - rewrite (sum_list_constant _ 1); [lia | by apply Forall_forall].
  - intros p. by destruct (fromModel p).
Qed.
End parameters.

(** ** Placeholders and parameters, statement by statement *)

Section statements.
Implicit Types (l when : list PropertyInfo) (primaryKeys : gset string).

Lemma Forall_filter_keep {A} (P : A → Prop) (Q : A → Prop) `{∀ x, Decision (Q x)}
    (items : list A) :
  Forall P items → Forall P (filter Q items).
Proof.
  rewrite !Forall_forall. intros HP x [_ Hx]%list_elem_of_filter. by apply HP.
Qed.

Lemma length_positive l : (0 <? length l) = false → l = [].
Proof. by destruct l. Qed.

(** *** SELECT *)


Lemma selectParamsGetter_no_elision l limit :
  no_elision (returned (selectParamsGetter l limit)).
Proof.
  unfold selectParamsGetter. cbn [returned].
  destruct l as [|p l].
  - destruct (typeof_number limit);
      [apply no_elision_separated; constructor | apply no_elision_nil].
  - change (0 <? length (p :: l)) with true. cbv iota.
    destruct (typeof_number limit).
    + rewrite <- app_assoc. apply no_elision_app_comma.
      * by apply _valueGetterExpression_separated.
      * apply no_elision_separated. constructor.
    + apply _valueGetterExpression_no_elision.
Qed.


(** *** INSERT *)





(** *** UPDATE and DELETE *)

Lemma placeholders_condition_clause (text : string) when ifExists :
  Forall plain_binding when →
  placeholders
    (if is_true ifExists then text +:+ " IF EXISTS"
     else if 0 <? length when
          then (text +:+ " IF ") +:+ _getConditionWithOperators when
          else text)
  = placeholders text
    + (if is_true ifExists then 0 else sum_list (map (λ p, leaves (value p)) when)).
Proof.
  intros Hwhen.
  destruct (is_true ifExists); [| destruct (0 <? length when) eqn:Hlength].
  - rewrite placeholders_app. count_literals. lia.
  - rewrite !placeholders_app, placeholders_conditions by done. count_literals. lia.
  - apply length_positive in Hlength as ->. simpl. lia.
Qed.

Lemma placeholders_getUpdateQuery tableName keyspace primaryKeys l when ifExists
    allowFilter ttl :
  plain keyspace → plain tableName → Forall plain_binding l → Forall plain_binding when →
  placeholders
    (_getUpdateQuery tableName keyspace primaryKeys l when ifExists allowFilter ttl)
  = (if typeof_number ttl then 1 else 0)
    + length (filter (λ p, columnName p ∉ primaryKeys) l)
    + length (filter (λ p, columnName p ∈ primaryKeys) l)
    + (if is_true ifExists then 0 else sum_list (map (λ p, leaves (value p)) when)).
Proof.
  unfold plain. intros Hkeyspace Htable Hl Hwhen. unfold _getUpdateQuery.
  rewrite placeholders_condition_clause by done.
  destruct (typeof_number ttl);
    rewrite ?placeholders_app, ?Hkeyspace, ?Htable,
      placeholders_assignments, placeholders_equalities
      by (reflexivity || by apply Forall_filter_keep);
    count_literals; lia.
Qed.

Lemma placeholders_getDeleteQuery tableName keyspace primaryKeys l when ifExists
    deleteOnlyColumns :
  plain keyspace → plain tableName → Forall plain_binding l → Forall plain_binding when →
  placeholders
    (_getDeleteQuery tableName keyspace primaryKeys l when ifExists deleteOnlyColumns)
  = length (filter (λ p, columnName p ∈ primaryKeys) l)
    + (if is_true ifExists then 0 else sum_list (map (λ p, leaves (value p)) when)).
Proof.
  unfold plain. intros Hkeyspace Htable Hl Hwhen. unfold _getDeleteQuery.
  rewrite placeholders_condition_clause by done.
  assert (placeholders
            (String.concat ", "
               (map columnName (filter (λ p, columnName p ∉ primaryKeys) l))) = 0)
    as Hcolumns.
  { apply placeholders_names; [reflexivity |]. apply Forall_filter_keep.
    eapply Forall_impl; [exact Hl |]. by intros p [Hcolumn _]. }
  destruct (truthy deleteOnlyColumns);
    [destruct (negb (String.eqb _ EmptyString)) |];
    rewrite ?placeholders_app, ?Hkeyspace, ?Htable, ?Hcolumns,
      placeholders_equalities
      by (reflexivity || by apply Forall_filter_keep);
    count_literals; lia.
Qed.

(** The where and condition parts, shared by both getters. *)
Lemma keys_and_conditions_no_elision (keys when : list PropertyInfo) :
  keys ≠ [] ∨ when = [] →
  no_elision
    (_valueGetterExpression keys None
     ++ (if 0 <? length when
         then Comma :: _valueGetterExpression when (Some docInfo_when)
         else [])).
Proof.
  intros Hshape. destruct when as [|w when].
  - cbn [length Nat.ltb Nat.leb]. rewrite app_nil_r.
    apply _valueGetterExpression_no_elision.
  - destruct Hshape as [Hkeys | ?]; [| done].
    change (0 <? length (w :: when)) with true. cbv iota.
    apply no_elision_app_comma.
    + by apply _valueGetterExpression_separated.
    + by apply _valueGetterExpression_no_elision.
Qed.

Lemma length_keys_and_conditions (keys when : list PropertyInfo) :
  length (exprs (_valueGetterExpression keys None
                 ++ (if 0 <? length when
                     then Comma :: _valueGetterExpression when (Some docInfo_when)
                     else [])))
  = sum_list (map (λ p, leaves (value p)) keys)
    + sum_list (map (λ p, leaves (value p)) when).
Proof.
  rewrite exprs_app, length_app, length_exprs_valueGetterExpression.
  destruct (0 <? length when) eqn:Hlength.
  - cbn [exprs omap list_omap].
    fold (exprs (_valueGetterExpression when (Some docInfo_when))).
    by rewrite length_exprs_valueGetterExpression.
  - apply length_positive in Hlength as ->. reflexivity.
Qed.

Lemma _updateParamsGetter_shape primaryKeys l when ttl :
  returned (_updateParamsGetter primaryKeys l when ttl)
  = (if typeof_number ttl then [Expr (EProperty EDocInfo "ttl"); Comma] else [])
    ++ _assignmentGetterExpression (filter (λ p, columnName p ∉ primaryKeys) l) None
    ++ Comma ::
       (_valueGetterExpression (filter (λ p, columnName p ∈ primaryKeys) l) None
        ++ (if 0 <? length when
            then Comma :: _valueGetterExpression when (Some docInfo_when)
            else [])).
Proof.
  unfold _updateParamsGetter. cbn [returned].
  destruct (0 <? length when); rewrite <- ?app_assoc; simpl;
    rewrite ?app_nil_r; reflexivity.
Qed.

Lemma _updateParamsGetter_no_elision primaryKeys l when ttl :
  filter (λ p, columnName p ∉ primaryKeys) l ≠ [] →
  filter (λ p, columnName p ∈ primaryKeys) l ≠ [] ∨ when = [] →
  no_elision (returned (_updateParamsGetter primaryKeys l when ttl)).
Proof.
  intros Hmutated Hshape. rewrite _updateParamsGetter_shape.
  assert (no_elision
            (_assignmentGetterExpression
               (filter (λ p, columnName p ∉ primaryKeys) l) None
             ++ Comma ::
                (_valueGetterExpression
                   (filter (λ p, columnName p ∈ primaryKeys) l) None
                 ++ (if 0 <? length when
                     then Comma :: _valueGetterExpression when (Some docInfo_when)
                     else [])))) as Hrest.
  { apply no_elision_app_comma.
    - by apply _assignmentGetterExpression_separated.
    - by apply keys_and_conditions_no_elision. }
  destruct (typeof_number ttl); [| exact Hrest].
  apply (no_elision_app_comma [Expr (EProperty EDocInfo "ttl")]);
    [constructor | exact Hrest].
Qed.

Lemma length_exprs_updateParamsGetter primaryKeys l when ttl :
  length (exprs (returned (_updateParamsGetter primaryKeys l when ttl)))
  = (if typeof_number ttl then 1 else 0)
    + length (filter (λ p, columnName p ∉ primaryKeys) l)
    + sum_list (map (λ p, leaves (value p)) (filter (λ p, columnName p ∈ primaryKeys) l))
    + sum_list (map (λ p, leaves (value p)) when).
Proof.
  rewrite _updateParamsGetter_shape, !exprs_app, !length_app.
  rewrite length_exprs_assignmentGetterExpression.
  change (exprs (Comma :: ?ts)) with (exprs ts).
  rewrite length_keys_and_conditions.
  destruct (typeof_number ttl); simpl; lia.
Qed.

Lemma _deleteParamsGetter_shape primaryKeys l when :
  returned (_deleteParamsGetter primaryKeys l when)
  = _valueGetterExpression (filter (λ p, columnName p ∈ primaryKeys) l) None
    ++ (if 0 <? length when
        then Comma :: _valueGetterExpression when (Some docInfo_when)
        else []).
Proof.
  unfold _deleteParamsGetter. cbn [returned].
  destruct (0 <? length when); by rewrite ?app_nil_r.
Qed.

Lemma _deleteParamsGetter_no_elision primaryKeys l when :
  filter (λ p, columnName p ∈ primaryKeys) l ≠ [] ∨ when = [] →
  no_elision (returned (_deleteParamsGetter primaryKeys l when)).
Proof.
  intros Hshape. rewrite _deleteParamsGetter_shape.
  by apply keys_and_conditions_no_elision.
Qed.

Lemma length_exprs_deleteParamsGetter primaryKeys l when :
  length (exprs (returned (_deleteParamsGetter primaryKeys l when)))
  = sum_list (map (λ p, leaves (value p)) (filter (λ p, columnName p ∈ primaryKeys) l))
    + sum_list (map (λ p, leaves (value p)) when).
Proof. rewrite _deleteParamsGetter_shape. apply length_keys_and_conditions. Qed.
End statements.

(** ** The positional contract *)




(** ** SELECT: the trailing directive *)

(** C3. The text returned by [getSelect] always ends with
    [" ALLOW FILTERING"], and the [allowFilter] argument does not influence
    the text: any two values of the flag give the same query. *)
Theorem getSelect_always_allows_filtering
    (tableName keyspace : string) (propertiesInfo fieldsInfo : list PropertyInfo)
    (orderByColumns : list (string * string)) (limit : jsval) :
  (∀ allowFilter,
     ends_with " ALLOW FILTERING"
       (getSelect tableName keyspace propertiesInfo fieldsInfo orderByColumns
          allowFilter limit) = true)
  ∧ (∀ allowFilter allowFilter',
       getSelect tableName keyspace propertiesInfo fieldsInfo orderByColumns
         allowFilter limit
       = getSelect tableName keyspace propertiesInfo fieldsInfo orderByColumns
           allowFilter' limit).
Proof.
  split.
  - intros allowFilter. unfold getSelect. apply ends_with_app.
  - intros allowFilter allowFilter'. reflexivity.
Qed.

(** ** INSERT: idempotency *)

(** C5. The idempotent flag of an insert is false when [ifNotExists] is
    [true] and true when it is [false] or omitted, whatever the schema, the
    bindings, the time-to-live and the other options are. *)
Theorem getInsert_isIdempotent
    (table : table.t) (keyspace : string) (propertiesInfo : list PropertyInfo)
    (docInfo allowFilter : jsval) :
  isIdempotent (getInsert table keyspace propertiesInfo docInfo (VBool true) allowFilter)
    = false
  ∧ isIdempotent (getInsert table keyspace propertiesInfo docInfo (VBool false) allowFilter)
    = true
  ∧ isIdempotent (getInsert table keyspace propertiesInfo docInfo VUndefined allowFilter)
    = true.
Proof. repeat split. Qed.

(** * Further properties of the generator *)

(** ** What a compiled getter computes *)

Section getter_semantics.
Implicit Types (ρ : Env) (l : list PropertyInfo) (ts : list token).

Lemma eval_elements_exprs ρ (es : list expr) :
  eval_elements ρ (Some <$> es) = mapM (eval ρ) es.
Proof.
  unfold eval_elements. induction es as [|e es IH]; [done |].
  rewrite fmap_cons. cbn [mapM eval_element]. by rewrite IH.
Qed.

Lemma runInThisContext_no_elision (s : Script) ρ :
  no_elision (returned s) →
  runInThisContext s ρ = mapM (eval ρ) (exprs (returned s)).
Proof.
  unfold no_elision, runInThisContext. intros ->. apply eval_elements_exprs.
Qed.

Lemma mapM_concat_Some {A B C} (f : B → option C) (g : A → list B) (h : A → list C)
    (items : list A) :
  (∀ x, x ∈ items → mapM f (g x) = Some (h x)) →
  mapM f (concat (g <$> items)) = Some (concat (h <$> items)).
Proof.
  induction items as [|x items IH]; intros Hitems; [done |].
  rewrite !fmap_cons. cbn [concat]. rewrite mapM_option_app.
  rewrite Hitems by (by left). rewrite IH by (intros y Hy; apply Hitems; by right).
  reflexivity.
Qed.

Lemma exprs_valueGetterExpression l (objectName : option expr) :
  exprs (_valueGetterExpression l objectName)
  = concat ((λ p, exprs (_valueGetterSingle
                           (EProperty (default EDoc objectName) (propertyName p))
                           (propertyName p) (value p) (fromModel p))) <$> l).
Proof.
  unfold _valueGetterExpression. rewrite exprs_join_tokens.
  change (map ?f l) with (f <$> l). by rewrite <- list_fmap_compose.
Qed.

Lemma eval_children ρ (prefix : expr) (key : string) (w0 w1 : jsval) :
  eval ρ prefix = Some (QueryOperatorChildren key w0 w1) →
  eval ρ (EIndex (EMember prefix "value") 0) = Some w0
  ∧ eval ρ (EIndex (EMember prefix "value") 1) = Some w1.
Proof. intros Hprefix. cbn [eval]. rewrite Hprefix. by split. Qed.

Lemma eval_operand ρ (prefix : expr) (key : string) (operand : jsval) (isIn : bool) :
  eval ρ prefix = Some (QueryOperator key operand isIn) →
  eval ρ (EMember prefix "value") = Some operand.
Proof. intros Hprefix. cbn [eval]. by rewrite Hprefix. Qed.

Lemma eval_EIndex ρ (e : expr) (i : nat) :
  eval ρ (EIndex e i) = (v ← eval ρ e; get_index v i).
Proof. reflexivity. Qed.

Lemma eval_EFromModel ρ (propName : string) (arg : expr) :
  eval ρ (EFromModel propName arg)
  = (f ← getFromModelFn ρ propName; v ← eval ρ arg; Some (f v)).
Proof. reflexivity. Qed.

(** The expressions compiled for one binding, evaluated where the prefix
    holds a value of the binding's shape. *)
Lemma _valueGetterSingle_values ρ (prefix : expr) (propName : string)
    (shape w : jsval) (fromModelFn : bool) (convert : jsval → jsval) :
  same_shape shape w = true →
  eval ρ prefix = Some w →
  (fromModelFn = true → getFromModelFn ρ propName = Some convert) →
  mapM (eval ρ) (exprs (_valueGetterSingle prefix propName shape fromModelFn))
  = Some (leaf_values fromModelFn convert shape w).
Proof.
  intros Hshape Hprefix Hconvert. revert prefix w Hshape Hprefix.
  assert (∀ prefix w, eval ρ prefix = Some w →
            mapM (eval ρ)
              (exprs (if negb fromModelFn then [Expr prefix]
                      else [Expr (_getMappingFunctionCall propName prefix)]))
            = Some [if fromModelFn then convert w else w]) as Hleaf.
  { intros prefix w Hprefix. destruct fromModelFn; cbn [negb exprs omap list_omap mapM].
    - unfold _getMappingFunctionCall. rewrite eval_EFromModel, Hconvert, Hprefix by done.
      reflexivity.
    - by rewrite Hprefix. }
  induction shape as [| | | | | | | key operand _ isIn | key s0 IH0 s1 IH1 | ];
    intros prefix w Hshape Hprefix; cbn [_valueGetterSingle leaf_values];
    try (by apply Hleaf).
  - destruct w as [| | | | | | | key' operand' isIn' | | ]; try discriminate.
    pose proof (eval_operand ρ prefix key' operand' isIn' Hprefix) as Hoperand.
    destruct isIn, fromModelFn; cbn [andb negb];
      try (by apply (Hleaf (EMember prefix "value") operand' Hoperand)).
    cbn [same_shape] in Hshape.
    destruct operand' as [| | | | | items | | | | ]; try discriminate.
    cbn [exprs omap list_omap mapM]. rewrite eval_EMapFromModel, Hoperand.
    cbn [mbind option_bind].
    rewrite (mapM_conversion _ convert items) by auto. reflexivity.
  - destruct w as [| | | | | | | | key' w0 w1 | ]; try discriminate.
    cbn [same_shape] in Hshape. apply andb_true_iff in Hshape as [Hshape0 Hshape1].
    destruct (eval_children ρ prefix key' w0 w1 Hprefix) as [Hw0 Hw1].
    rewrite exprs_app. cbn [exprs omap list_omap].
    fold (exprs (_valueGetterSingle (EIndex (EMember prefix "value") 1) propName s1
                   fromModelFn)).
    rewrite mapM_option_app, (IH0 _ w0), (IH1 _ w1) by done. reflexivity.
Qed.

(** When the prefix cannot be evaluated, none of the expressions compiled
    for the binding can. *)
Lemma _valueGetterSingle_throws ρ (prefix : expr) (propName : string)
    (shape : jsval) (fromModelFn : bool) :
  eval ρ prefix = None →
  Forall (λ e, eval ρ e = None)
    (exprs (_valueGetterSingle prefix propName shape fromModelFn)).
Proof.
  revert prefix.
  assert (∀ prefix, eval ρ prefix = None →
            Forall (λ e, eval ρ e = None)
              (exprs (if negb fromModelFn then [Expr prefix]
                      else [Expr (_getMappingFunctionCall propName prefix)])))
    as Hleaf.
  { intros prefix Hprefix. destruct fromModelFn; cbn [negb exprs omap list_omap];
      constructor; try constructor; [| done].
    unfold _getMappingFunctionCall. rewrite eval_EFromModel, Hprefix.
    by destruct (getFromModelFn ρ propName). }
  assert (∀ prefix, eval ρ prefix = None → eval ρ (EMember prefix "value") = None)
    as Hmember.
  { intros prefix Hprefix. cbn [eval]. by rewrite Hprefix. }
  induction shape as [| | | | | | | key operand _ isIn | key s0 IH0 s1 IH1 | ];
    intros prefix Hprefix; cbn [_valueGetterSingle];
    try (by apply Hleaf).
  - destruct isIn, fromModelFn; cbn [andb negb];
      try (by apply (Hleaf (EMember prefix "value")), Hmember).
    cbn [exprs omap list_omap]. constructor; [| constructor].
    by rewrite eval_EMapFromModel, Hmember.
  - rewrite exprs_app. cbn [exprs omap list_omap].
    fold (exprs (_valueGetterSingle (EIndex (EMember prefix "value") 1) propName s1
                   fromModelFn)).
    apply Forall_app. split; [apply IH0 | apply IH1];
      cbn [eval]; by rewrite Hprefix.
Qed.

Lemma _valueGetterSingle_comparison_throws ρ (prefix : expr) (propName : string)
    (shape w : jsval) (fromModelFn : bool) :
  is_comparison shape = true →
  eval ρ prefix = Some w → get_member w "value" = None →
  Forall (λ e, eval ρ e = None)
    (exprs (_valueGetterSingle prefix propName shape fromModelFn)).
Proof.
  intros Hcomparison Hprefix Hw.
  assert (eval ρ (EMember prefix "value") = None) as Hmember.
  { cbn [eval]. by rewrite Hprefix. }
  destruct shape as [| | | | | | | key operand isIn | key s0 s1 | ]; try discriminate;
    cbn [_valueGetterSingle].
  - destruct isIn, fromModelFn; cbn [andb negb exprs omap list_omap];
      (constructor; [| constructor]); try done.
    + by rewrite eval_EMapFromModel, Hmember.
    + unfold _getMappingFunctionCall. rewrite eval_EFromModel, Hmember.
      by destruct (getFromModelFn ρ propName).
  - rewrite exprs_app. cbn [exprs omap list_omap].
    fold (exprs (_valueGetterSingle (EIndex (EMember prefix "value") 1) propName s1
                   fromModelFn)).
    apply Forall_app. split; apply _valueGetterSingle_throws;
      by rewrite eval_EIndex, Hmember.
Qed.

Lemma mapM_None_member {A B} (f : A → option B) (items : list A) (x : A) :
  x ∈ items → f x = None → mapM f items = None.
Proof.
  intros Hx Hf. apply mapM_None_2, Exists_exists. eauto.
Qed.
End getter_semantics.

Lemma elem_of_concat_intro {A} (x : A) (l : list A) (ls : list (list A)) :
  x ∈ l → l ∈ ls → x ∈ concat ls.
Proof.
  intros Hx Hl. apply list_elem_of_In, in_concat. exists l.
  split; by apply list_elem_of_In.
Qed.

Lemma exprs_selectParamsGetter (l : list PropertyInfo) (limit : jsval) :
  exprs (returned (selectParamsGetter l limit))
  = exprs (_valueGetterExpression l None)
    ++ (if typeof_number limit then [EProperty EDocInfo "limit"] else []).
Proof.
  unfold selectParamsGetter. cbn [returned].
  destruct (typeof_number limit), (0 <? length l);
    rewrite ?exprs_app, ?app_nil_r; reflexivity.
Qed.

Lemma eval_document_property (ρ : Env) (fields : list (string * jsval)) (name : string) :
  doc ρ = VObject fields →
  eval ρ (EProperty EDoc name) = Some (assoc name fields).
Proof. intros Hdoc. cbn [eval]. by rewrite Hdoc. Qed.

(** X1. For a [script_safe] property name and a run-time value of the shape
    the binding was compiled for,
    with the conversion function registered when the binding asks for it,
    the expressions compiled for the binding never throw: they return the
    leaf values from left to right (converted, a membership array
    elementwise), one per leaf of the shape. *)
Theorem binding_getter_returns_leaf_values
    (ρ : Env) (prefix : expr) (propName : string) (shape w : jsval)
    (fromModelFn : bool) (convert : jsval → jsval) :
  script_safe propName = true →
  same_shape shape w = true →
  eval ρ prefix = Some w →
  (fromModelFn = true → getFromModelFn ρ propName = Some convert) →
  run_tokens (_valueGetterSingle prefix propName shape fromModelFn) ρ
  = Some (leaf_values fromModelFn convert shape w)
  ∧ length (leaf_values fromModelFn convert shape w) = leaves shape.
Proof.
  intros _ Hshape Hprefix Hconvert.
  pose proof (_valueGetterSingle_values ρ prefix propName shape w fromModelFn convert
                Hshape Hprefix Hconvert) as Hvalues.
  split.
  - by rewrite run_tokens_separated by apply _valueGetterSingle_separated.
  - apply length_mapM in Hvalues. by rewrite <- Hvalues, length_exprs_single.
Qed.

Lemma binding_getter_returns_leaf_values_witness :
  let ρ := mkEnv (VObject [("age", between_1_and_9)]) VUndefined
             (λ _, Some (λ v, VArray [v])) in
  run_tokens (_valueGetterSingle (EProperty EDoc "age") "age"
                (QueryOperatorChildren "AND"
                   (QueryOperator ">=" (VNumber 0) false)
                   (QueryOperator "<=" (VNumber 0) false)) true) ρ
  = Some [VArray [VNumber 1]; VArray [VNumber 9]].
Proof.
  intros ρ.
  apply (binding_getter_returns_leaf_values ρ (EProperty EDoc "age") "age"
           (QueryOperatorChildren "AND"
              (QueryOperator ">=" (VNumber 0) false)
              (QueryOperator "<=" (VNumber 0) false))
           between_1_and_9 true (λ v, VArray [v])); reflexivity.
Defined.

(** X2. Property names are [script_safe] and not inherited names.  On a
    document that holds, under each where-binding's property, a
    value of the binding's shape, the SELECT getter returns the leaf values
    of the bindings in binding order, read by property name, followed by
    [docInfo.limit] when the statement was built with a limit; it throws
    only if a limit is expected and the run-time [docInfo] is [undefined]
    or [null]. *)
Theorem selectParamsGetter_returns_values
    (ρ : Env) (propertiesInfo : list PropertyInfo) (limit : jsval)
    (fields : list (string * jsval)) (convert : string → jsval → jsval) :
  safe_property_names propertiesInfo → own_property_names propertiesInfo →
  doc ρ = VObject fields →
  (∀ p, p ∈ propertiesInfo →
        same_shape (value p) (assoc (propertyName p) fields) = true) →
  (∀ p, p ∈ propertiesInfo → fromModel p = true →
        getFromModelFn ρ (propertyName p) = Some (convert (propertyName p))) →
  runInThisContext (selectParamsGetter propertiesInfo limit) ρ
  = (last ← (if typeof_number limit
             then v ← get_member (docInfo ρ) "limit"; Some [v]
             else Some []);
     Some (concat ((λ p, leaf_values (fromModel p) (convert (propertyName p))
                           (value p) (assoc (propertyName p) fields))
                     <$> propertiesInfo)
           ++ last)).
Proof.
  intros _ _ Hdoc Hshape Hconvert.
  rewrite runInThisContext_no_elision by apply selectParamsGetter_no_elision.
  rewrite exprs_selectParamsGetter, mapM_option_app, exprs_valueGetterExpression.
  rewrite (mapM_concat_Some _ _
             (λ p, leaf_values (fromModel p) (convert (propertyName p)) (value p)
                     (assoc (propertyName p) fields))).
  - cbn [mbind option_bind]. destruct (typeof_number limit); [| reflexivity].
    cbn [mapM eval mbind option_bind].
    destruct (get_member (docInfo ρ) "limit"); reflexivity.
  - intros p Hp. apply _valueGetterSingle_values; auto.
    by apply eval_document_property.
Qed.

Lemma selectParamsGetter_returns_values_witness :
  let where_ := [mkProperty "age" "age" between_1_and_9 false;
                 mkProperty "tag" "tags" (QueryOperator "IN" (VArray []) true) true] in
  let fields := [("tag", QueryOperator "IN" (VArray [VString "a"; VString "b"]) true);
                 ("age", between_1_and_9)] in
  let ρ := mkEnv (VObject fields) (VObject [("limit", VNumber 10)])
             (λ _, Some (λ v, VArray [v])) in
  runInThisContext (selectParamsGetter where_ (VNumber 100)) ρ
  = Some [VNumber 1; VNumber 9; VArray [VArray [VString "a"]; VArray [VString "b"]];
          VNumber 10].
Proof.
  intros where_ fields ρ.
  rewrite (selectParamsGetter_returns_values ρ where_ (VNumber 100) fields
             (λ _ v, VArray [v])).
  - reflexivity.
  - repeat constructor.
  - repeat constructor.
  - reflexivity.
  - intros p [-> | [-> | []%elem_of_nil]%elem_of_cons]%elem_of_cons; reflexivity.
  - intros p _ _. reflexivity.
Defined.

(** X3. Property names are [script_safe].  A where-binding compiled for a
    comparison value, whose property is not an inherited name, makes the
    SELECT getter throw on every document that lacks the property (or holds
    [undefined] or [null] under it): the getter reads [.value] of the
    property. *)
Theorem selectParamsGetter_throws_without_operand
    (ρ : Env) (propertiesInfo : list PropertyInfo) (limit : jsval)
    (fields : list (string * jsval)) (p : PropertyInfo) :
  safe_property_names propertiesInfo → inherited (propertyName p) = false →
  doc ρ = VObject fields →
  p ∈ propertiesInfo →
  is_comparison (value p) = true →
  get_member (assoc (propertyName p) fields) "value" = None →
  runInThisContext (selectParamsGetter propertiesInfo limit) ρ = None.
Proof.
  intros _ _ Hdoc Hp Hcomparison Hmissing.
  rewrite runInThisContext_no_elision by apply selectParamsGetter_no_elision.
  rewrite exprs_selectParamsGetter, exprs_valueGetterExpression. cbn [default].
  set (single := λ q, exprs (_valueGetterSingle (EProperty EDoc (propertyName q))
                                (propertyName q) (value q) (fromModel q))).
  pose proof (_valueGetterSingle_comparison_throws ρ (EProperty EDoc (propertyName p))
                (propertyName p) (value p) _ (fromModel p) Hcomparison
                (eval_document_property ρ fields _ Hdoc) Hmissing) as Hthrows.
  fold (single p) in Hthrows.
  assert (0 < length (single p)) as Hnonempty
    by apply separated_exprs_nonempty, _valueGetterSingle_separated.
  destruct (single p) as [|e es] eqn:Hsingle; [simpl in Hnonempty; lia |].
  apply Forall_cons in Hthrows as [He _].
  apply (mapM_None_member _ _ e); [| done].
  apply elem_of_app. left. apply (elem_of_concat_intro e (single p)).
  - rewrite Hsingle. by left.
  - apply list_elem_of_fmap. eauto.
Qed.

Lemma selectParamsGetter_throws_without_operand_witness :
  runInThisContext
    (selectParamsGetter [example.bind_id; mkProperty "age" "age" between_1_and_9 false]
       VUndefined)
    (mkEnv (VObject [("id", VNumber 5)]) VUndefined example.no_conversion)
  = None.
Proof.
  apply (selectParamsGetter_throws_without_operand _ _ _ [("id", VNumber 5)]
           (mkProperty "age" "age" between_1_and_9 false)).
  - repeat constructor.
  - reflexivity.
  - reflexivity.
  - apply elem_of_cons. right. apply elem_of_cons. by left.
  - reflexivity.
  - reflexivity.
Defined.

(** ** INSERT, UPDATE and DELETE getters on documents *)

Section statement_getters.
Implicit Types (ρ : Env) (l when : list PropertyInfo) (primaryKeys : gset string).

Lemma mapM_fmap_Some {A B C} (f : B → option C) (g : A → B) (h : A → C)
    (items : list A) :
  (∀ x, x ∈ items → f (g x) = Some (h x)) →
  mapM f (g <$> items) = Some (h <$> items).
Proof.
  induction items as [|x items IH]; intros Hitems; [done |].
  rewrite !fmap_cons. cbn [mapM].
  rewrite Hitems by (by left). rewrite IH by (intros y Hy; apply Hitems; by right).
  reflexivity.
Qed.

(** The values of a list of bindings read from the object that
    [objectName] denotes. *)
Lemma _valueGetterExpression_values ρ l (objectName : option expr)
    (fields : list (string * jsval)) (convert : string → jsval → jsval) :
  eval ρ (default EDoc objectName) = Some (VObject fields) →
  (∀ p, p ∈ l → same_shape (value p) (assoc (propertyName p) fields) = true) →
  (∀ p, p ∈ l → fromModel p = true →
        getFromModelFn ρ (propertyName p) = Some (convert (propertyName p))) →
  mapM (eval ρ) (exprs (_valueGetterExpression l objectName))
  = Some (concat ((λ p, leaf_values (fromModel p) (convert (propertyName p))
                          (value p) (assoc (propertyName p) fields)) <$> l)).
Proof.
  intros Hobject Hshape Hconvert. rewrite exprs_valueGetterExpression.
  apply mapM_concat_Some. intros p Hp.
  apply _valueGetterSingle_values; auto.
  cbn [eval]. by rewrite Hobject.
Qed.

Lemma _valueGetterExpression_nil (objectName : option expr) :
  _valueGetterExpression [] objectName = [].
Proof. reflexivity. Qed.

Lemma exprs_assignmentGetterExpression l :
  exprs (_assignmentGetterExpression l None) = assignment_getter <$> l.
Proof.
  unfold _assignmentGetterExpression. rewrite exprs_join_tokens. cbn [default].
  induction l as [|p l IH]; [done |].
  cbn [map fmap list_fmap concat] in *. rewrite IH.
  unfold assignment_getter. by destruct (fromModel p).
Qed.

Lemma _assignmentGetterExpression_values ρ l (fields : list (string * jsval))
    (convert : string → jsval → jsval) :
  doc ρ = VObject fields →
  (∀ p, p ∈ l → instanceof_QueryAssignment (value p) = true →
        instanceof_QueryAssignment (assoc (propertyName p) fields) = true) →
  (∀ p, p ∈ l → fromModel p = true →
        getFromModelFn ρ (propertyName p) = Some (convert (propertyName p))) →
  mapM (eval ρ) (exprs (_assignmentGetterExpression l None))
  = Some ((λ p, assigned_value (convert (propertyName p)) p
                  (assoc (propertyName p) fields)) <$> l).
Proof.
  intros Hdoc Hwrapped Hconvert. rewrite exprs_assignmentGetterExpression.
  apply mapM_fmap_Some. intros p Hp.
  pose proof (eval_document_property ρ fields (propertyName p) Hdoc) as Hproperty.
  unfold assignment_getter, assigned_value.
  assert (eval ρ (if instanceof_QueryAssignment (value p)
                  then EMember (EProperty EDoc (propertyName p)) "value"
                  else EProperty EDoc (propertyName p))
          = Some match value p, assoc (propertyName p) fields with
                 | QueryAssignment _ _ _, QueryAssignment _ operand _ => operand
                 | _, _ => assoc (propertyName p) fields
                 end) as Hraw.
  { specialize (Hwrapped p Hp).
    destruct (value p); cbn [instanceof_QueryAssignment]; try exact Hproperty.
    rewrite eval_EMember, Hproperty.
    destruct (assoc (propertyName p) fields); try (by discriminate Hwrapped).
    reflexivity. }
  destruct (fromModel p) eqn:HfromModel; [| exact Hraw].
  unfold _getMappingFunctionCall.
  rewrite eval_EFromModel, (Hconvert p Hp HfromModel), Hraw. reflexivity.
Qed.


Lemma exprs_updateParamsGetter primaryKeys l when (ttl : jsval) :
  exprs (returned (_updateParamsGetter primaryKeys l when ttl))
  = (if typeof_number ttl then [EProperty EDocInfo "ttl"] else [])
    ++ exprs (_assignmentGetterExpression
                (filter (λ p, columnName p ∉ primaryKeys) l) None)
    ++ exprs (_valueGetterExpression (filter (λ p, columnName p ∈ primaryKeys) l) None)
    ++ exprs (_valueGetterExpression when (Some docInfo_when)).
Proof.
  rewrite _updateParamsGetter_shape, !exprs_app.
  change (exprs (Comma :: ?ts)) with (exprs ts). rewrite exprs_app.
  destruct when as [|w when]; [| by destruct (typeof_number ttl)].
  by destruct (typeof_number ttl).
Qed.

Lemma exprs_deleteParamsGetter primaryKeys l when :
  exprs (returned (_deleteParamsGetter primaryKeys l when))
  = exprs (_valueGetterExpression (filter (λ p, columnName p ∈ primaryKeys) l) None)
    ++ exprs (_valueGetterExpression when (Some docInfo_when)).
Proof.
  rewrite _deleteParamsGetter_shape, exprs_app. by destruct when.
Qed.

Lemma conditions_values ρ when (fields : list (string * jsval))
    (convert : string → jsval → jsval) :
  when = [] ∨ get_member (docInfo ρ) "when" = Some (VObject fields) →
  (∀ p, p ∈ when → same_shape (value p) (assoc (propertyName p) fields) = true) →
  (∀ p, p ∈ when → fromModel p = true →
        getFromModelFn ρ (propertyName p) = Some (convert (propertyName p))) →
  mapM (eval ρ) (exprs (_valueGetterExpression when (Some docInfo_when)))
  = Some (concat ((λ p, leaf_values (fromModel p) (convert (propertyName p))
                          (value p) (assoc (propertyName p) fields)) <$> when)).
Proof.
  intros [-> | Hwhen] Hshape Hconvert; [done |].
  apply _valueGetterExpression_values; auto.
Qed.

Lemma time_to_live_value ρ (ttl : jsval) :
  mapM (eval ρ) (if typeof_number ttl then [EProperty EDocInfo "ttl"] else [])
  = (if typeof_number ttl then v ← get_member (docInfo ρ) "ttl"; Some [v] else Some []).
Proof.
  destruct (typeof_number ttl); [| done].
  cbn [mapM eval mbind option_bind].
  by destruct (get_member (docInfo ρ) "ttl").
Qed.
End statement_getters.





(** X6. Property names are [script_safe] and, like the column names, not
    inherited names; a mutated binding survives, and an identifying one
    does or there is no condition.  On a document of the right shape the
    UPDATE getter returns, in
    this order: the run-time time-to-live when the statement was built with
    one, the values of the mutated bindings (the raw value of an assignment
    wrapper, not the wrapper), the values of the identifying bindings, and
    the values of the conditions read from [docInfo.when]. *)
Theorem getUpdate_getter_returns_values
    (table : table.t) (keyspace : string) (propertiesInfo when : list PropertyInfo)
    (builtWith ifExists allowFilter : jsval) (ρ : Env)
    (fields conditions : list (string * jsval)) (convert : string → jsval → jsval) :
  let set := mutated table propertiesInfo in
  let keys := identifying table propertiesInfo in
  own_column_names propertiesInfo →
  safe_property_names (surviving table propertiesInfo ++ when) →
  own_property_names (surviving table propertiesInfo ++ when) →
  set ≠ [] → keys ≠ [] ∨ when = [] →
  doc ρ = VObject fields →
  when = [] ∨ get_member (docInfo ρ) "when" = Some (VObject conditions) →
  (∀ p, p ∈ set → instanceof_QueryAssignment (value p) = true →
        instanceof_QueryAssignment (assoc (propertyName p) fields) = true) →
  (∀ p, p ∈ keys → same_shape (value p) (assoc (propertyName p) fields) = true) →
  (∀ p, p ∈ when → same_shape (value p) (assoc (propertyName p) conditions) = true) →
  (∀ p, p ∈ propertiesInfo ∨ p ∈ when → fromModel p = true →
        getFromModelFn ρ (propertyName p) = Some (convert (propertyName p))) →
  runInThisContext
    (paramsGetter (getUpdate table keyspace propertiesInfo builtWith when ifExists allowFilter))
    ρ
  = (first ← (if typeof_number (docInfo_field builtWith "ttl")
              then v ← get_member (docInfo ρ) "ttl"; Some [v]
              else Some []);
     Some (first
           ++ ((λ p, assigned_value (convert (propertyName p)) p
                       (assoc (propertyName p) fields)) <$> set)
           ++ concat ((λ p, leaf_values (fromModel p) (convert (propertyName p))
                              (value p) (assoc (propertyName p) fields)) <$> keys)
           ++ concat ((λ p, leaf_values (fromModel p) (convert (propertyName p))
                              (value p) (assoc (propertyName p) conditions)) <$> when))).
Proof.
  intros set keys _ _ _ Hset Hkeys Hdoc Hwhen Hwrapped Hshape Hconditions Hconvert.
  assert (∀ p, p ∈ surviving table propertiesInfo → p ∈ propertiesInfo) as Hkept.
  { intros p [_ Hp]%list_elem_of_filter. exact Hp. }
  rewrite getUpdate_unfold. cbn [paramsGetter].
  rewrite runInThisContext_no_elision by by apply _updateParamsGetter_no_elision.
  rewrite exprs_updateParamsGetter, !mapM_option_app, time_to_live_value.
  fold (mutated table propertiesInfo). fold set.
  fold (identifying table propertiesInfo). fold keys.
  rewrite (_assignmentGetterExpression_values ρ set fields convert); [| done..|].
  - rewrite (_valueGetterExpression_values ρ keys None fields convert);
      [| by cbn [default eval]; rewrite Hdoc | done |].
    + rewrite (conditions_values ρ when conditions convert) by auto.
      by destruct (typeof_number (docInfo_field builtWith "ttl"));
        [destruct (get_member (docInfo ρ) "ttl") |].
    + intros p [_ Hp]%list_elem_of_filter. auto.
  - intros p [_ Hp]%list_elem_of_filter. auto.
Qed.

Lemma getUpdate_getter_returns_values_witness :
  let condition := [mkProperty "name" "name" between_1_and_9 false] in
  let called_with := VObject [("when", VObject [("name", between_1_and_9)])] in
  runInThisContext
    (paramsGetter (getUpdate example.t "ks" [example.bind_id; example.bind_count]
                     VUndefined condition VUndefined (VBool false)))
    (mkEnv example.document called_with example.no_conversion)
  = Some [VNumber 1; VNumber 5; VNumber 1; VNumber 9].
Proof.
  intros condition called_with.
  rewrite (getUpdate_getter_returns_values example.t "ks"
             [example.bind_id; example.bind_count] condition VUndefined VUndefined
             (VBool false) (mkEnv example.document called_with example.no_conversion)
             [("id", VNumber 5); ("name", VString "x"); ("count", example.increment)]
             [("name", between_1_and_9)] (λ _ v, v)).
  - reflexivity.
  - repeat constructor.
  - vm_compute. repeat constructor.
  - vm_compute. repeat constructor.
  - by vm_compute.
  - left. by vm_compute.
  - reflexivity.
  - by right.
  - intros p Hp _. vm_compute in Hp. by apply list_elem_of_singleton in Hp as ->.
  - intros p Hp. vm_compute in Hp. by apply list_elem_of_singleton in Hp as ->.
  - intros p ->%list_elem_of_singleton. reflexivity.
  - intros p [Hp | Hp] HfromModel.
    + apply elem_of_cons in Hp as [-> | ->%list_elem_of_singleton]; discriminate.
    + apply list_elem_of_singleton in Hp as ->. discriminate.
Defined.

(** X7. Property names are [script_safe] and, like the column names, not
    inherited names; an identifying binding survives or there is no
    condition.  The DELETE getter binds the identifying values only, then the
    values of the conditions read from [docInfo.when]: bindings of other
    columns contribute no parameter, with or without the column-restricted
    option, and the call options the statement was built with are not
    consulted. *)
Theorem getDelete_getter_returns_values
    (table : table.t) (keyspace : string) (propertiesInfo when : list PropertyInfo)
    (builtWith ifExists : jsval) (ρ : Env)
    (fields conditions : list (string * jsval)) (convert : string → jsval → jsval) :
  let keys := identifying table propertiesInfo in
  own_column_names propertiesInfo →
  safe_property_names (keys ++ when) → own_property_names (keys ++ when) →
  keys ≠ [] ∨ when = [] →
  doc ρ = VObject fields →
  when = [] ∨ get_member (docInfo ρ) "when" = Some (VObject conditions) →
  (∀ p, p ∈ keys → same_shape (value p) (assoc (propertyName p) fields) = true) →
  (∀ p, p ∈ when → same_shape (value p) (assoc (propertyName p) conditions) = true) →
  (∀ p, p ∈ keys ∨ p ∈ when → fromModel p = true →
        getFromModelFn ρ (propertyName p) = Some (convert (propertyName p))) →
  runInThisContext
    (paramsGetter (getDelete table keyspace propertiesInfo builtWith when ifExists)) ρ
  = Some (concat ((λ p, leaf_values (fromModel p) (convert (propertyName p))
                          (value p) (assoc (propertyName p) fields)) <$> keys)
          ++ concat ((λ p, leaf_values (fromModel p) (convert (propertyName p))
                             (value p) (assoc (propertyName p) conditions)) <$> when)).
Proof.
  intros keys Hown _ _ Hkeys Hdoc Hwhen Hshape Hconditions Hconvert.
  rewrite getDelete_own by done. cbn [paramsGetter].
  rewrite runInThisContext_no_elision by by apply _deleteParamsGetter_no_elision.
  rewrite exprs_deleteParamsGetter, mapM_option_app.
  fold (surviving table propertiesInfo). fold (identifying table propertiesInfo). fold keys.
  rewrite (_valueGetterExpression_values ρ keys None fields convert);
    [| by cbn [default eval]; rewrite Hdoc | done | auto].
  by rewrite (conditions_values ρ when conditions convert) by auto.
Qed.

Lemma getDelete_getter_returns_values_witness :
  let condition := [mkProperty "name" "name" (QueryOperator "=" (VString "x") false) false] in
  let called_with := VObject [("when", VObject [("name", QueryOperator "=" (VString "y") false)])] in
  runInThisContext
    (paramsGetter (getDelete example.t "ks" [example.bind_name; example.bind_id]
                     (VObject [("deleteOnlyColumns", VBool true)]) condition VUndefined))
    (mkEnv example.document called_with example.no_conversion)
  = Some [VNumber 5; VString "y"].
Proof.
  intros condition called_with.
  rewrite (getDelete_getter_returns_values example.t "ks"
             [example.bind_name; example.bind_id] condition
             (VObject [("deleteOnlyColumns", VBool true)]) VUndefined
             (mkEnv example.document called_with example.no_conversion)
             [("id", VNumber 5); ("name", VString "x"); ("count", example.increment)]
             [("name", QueryOperator "=" (VString "y") false)] (λ _ v, v)).
  - reflexivity.
  - repeat constructor.
  - vm_compute. repeat constructor.
  - vm_compute. repeat constructor.
  - left. by vm_compute.
  - reflexivity.
  - by right.
  - intros p Hp. vm_compute in Hp. by apply list_elem_of_singleton in Hp as ->.
  - intros p ->%list_elem_of_singleton. reflexivity.
  - intros p [Hp | Hp] HfromModel.
    + vm_compute in Hp. apply list_elem_of_singleton in Hp as ->. discriminate.
    + apply list_elem_of_singleton in Hp as ->. discriminate.
Defined.

(** X8. Property names are [script_safe] and no binding names an inherited
    column.  A DELETE built with conditions, for which an identifying
    binding survives, reads the conditions from [docInfo.when] at
    every call: when the run-time [docInfo] is [undefined] or [null], or has
    no [when], the getter throws. *)
Theorem getDelete_getter_throws_without_when
    (table : table.t) (keyspace : string) (propertiesInfo when : list PropertyInfo)
    (builtWith ifExists : jsval) (ρ : Env) :
  own_column_names propertiesInfo →
  safe_property_names (identifying table propertiesInfo ++ when) →
  identifying table propertiesInfo ≠ [] → when ≠ [] →
  docInfo ρ = VUndefined ∨ docInfo ρ = VNull
  ∨ get_member (docInfo ρ) "when" = Some VUndefined
  ∨ get_member (docInfo ρ) "when" = Some VNull →
  runInThisContext
    (paramsGetter (getDelete table keyspace propertiesInfo builtWith when ifExists)) ρ
  = None.
Proof.
  intros Hown _ Hkeys Hwhen Hmissing.
  assert (∀ name, eval ρ (EProperty docInfo_when name) = None) as Hthrows.
  { intros name. unfold docInfo_when. cbn [eval mbind option_bind].
    destruct Hmissing as [-> | [-> | [-> | ->]]]; reflexivity. }
  rewrite getDelete_own by done. cbn [paramsGetter].
  rewrite runInThisContext_no_elision
    by (apply _deleteParamsGetter_no_elision; by left).
  rewrite exprs_deleteParamsGetter, (exprs_valueGetterExpression when). cbn [default].
  set (single := λ q, exprs (_valueGetterSingle (EProperty docInfo_when (propertyName q))
                               (propertyName q) (value q) (fromModel q))).
  destruct when as [|w when]; [done |].
  pose proof (_valueGetterSingle_throws ρ (EProperty docInfo_when (propertyName w))
                (propertyName w) (value w) (fromModel w) (Hthrows _)) as Hall.
  fold (single w) in Hall.
  assert (0 < length (single w)) as Hnonempty
    by apply separated_exprs_nonempty, _valueGetterSingle_separated.
  destruct (single w) as [|e es] eqn:Hsingle; [simpl in Hnonempty; lia |].
  apply Forall_cons in Hall as [He _].
  apply (mapM_None_member _ _ e); [| done].
  apply elem_of_app. right. apply (elem_of_concat_intro e (single w)).
  - rewrite Hsingle. by left.
  - apply list_elem_of_fmap. exists w. split; [done | by left].
Qed.

Lemma getDelete_getter_throws_without_when_witness :
  runInThisContext
    (paramsGetter (getDelete example.t "ks" [example.bind_id] VUndefined
                     [example.bind_name] VUndefined))
    (mkEnv example.document (VObject [("ttl", VNumber 60)]) example.no_conversion)
  = None.
Proof.
  apply getDelete_getter_throws_without_when.
  - repeat constructor.
  - vm_compute. repeat constructor.
  - by vm_compute.
  - done.
  - right. right. left. reflexivity.
Defined.

(** ** Flags and text *)

Lemma existsb_Permutation {A} (f : A → bool) (l l' : list A) :
  l ≡ₚ l' → existsb f l = existsb f l'.
Proof.
  induction 1 as [| x l l' _ IH | x y l | l l' l'' _ IH1 _ IH2]; simpl.
  - done.
  - by rewrite IH.
  - by destruct (f x), (f y).
  - by rewrite IH1.
Qed.

(** X9. A counter statement is never idempotent: whenever [getUpdate]
    reports [isCounter], it reports [isIdempotent = false]. *)
Theorem getUpdate_counter_not_idempotent
    (table : table.t) (keyspace : string) (propertiesInfo when : list PropertyInfo)
    (docInfo ifExists allowFilter : jsval) :
  let updated :=
    getUpdate table keyspace propertiesInfo docInfo when ifExists allowFilter in
  isCounter updated = Some true → isIdempotent updated = false.
Proof.
  intros updated. subst updated. rewrite getUpdate_unfold. cbn [isCounter isIdempotent].
  intros [= Hcounter].
  apply existsb_exists in Hcounter as (p & Hp & Hcounter).
  rewrite (existsb_true_intro _ _ p); [done | by apply list_elem_of_In |].
  rewrite Hcounter. apply orb_true_r.
Qed.

Lemma getUpdate_counter_not_idempotent_witness :
  isIdempotent (getUpdate example.t "ks" [example.bind_id; example.bind_count]
                  VUndefined [] VUndefined VUndefined) = false.
Proof. apply getUpdate_counter_not_idempotent. reflexivity. Defined.

(** X10. The flags of an update do not depend on the order of the
    bindings: reordering the bindings leaves [isIdempotent] and [isCounter]
    unchanged. *)
Theorem getUpdate_flags_order_independent
    (table : table.t) (keyspace : string) (propertiesInfo reordered when : list PropertyInfo)
    (docInfo ifExists allowFilter : jsval) :
  propertiesInfo ≡ₚ reordered →
  isIdempotent (getUpdate table keyspace propertiesInfo docInfo when ifExists allowFilter)
  = isIdempotent (getUpdate table keyspace reordered docInfo when ifExists allowFilter)
  ∧ isCounter (getUpdate table keyspace propertiesInfo docInfo when ifExists allowFilter)
    = isCounter (getUpdate table keyspace reordered docInfo when ifExists allowFilter).
Proof.
  intros Hreordered. rewrite !getUpdate_unfold. cbn [isIdempotent isCounter].
  by rewrite !(existsb_Permutation _ _ _ Hreordered).
Qed.

Lemma getUpdate_flags_order_independent_witness :
  isCounter (getUpdate example.t "ks" [example.bind_count; example.bind_id]
               VUndefined [] VUndefined VUndefined)
  = isCounter (getUpdate example.t "ks" [example.bind_id; example.bind_count]
                 VUndefined [] VUndefined VUndefined).
Proof.
  apply (getUpdate_flags_order_independent example.t "ks"
           [example.bind_count; example.bind_id] [example.bind_id; example.bind_count]
           [] VUndefined VUndefined VUndefined).
  apply perm_swap.
Defined.

(** X11. Primary-key membership splits the surviving bindings into the
    mutated and the identifying ones, and the UPDATE text has one
    placeholder for each of them, plus those of the conditions (none under
    [IF EXISTS]) and one for the time-to-live clause, which is rendered
    when the [allowFilter] argument is a number. *)
Theorem getUpdate_one_placeholder_per_binding
    (table : table.t) (keyspace : string) (propertiesInfo when : list PropertyInfo)
    (docInfo ifExists allowFilter : jsval) :
  plain keyspace → plain (table.name table) →
  Forall plain_binding propertiesInfo → Forall plain_binding when →
  mutated table propertiesInfo ++ identifying table propertiesInfo
    ≡ₚ surviving table propertiesInfo
  ∧ placeholders
      (query (getUpdate table keyspace propertiesInfo docInfo when ifExists allowFilter))
    = (if typeof_number allowFilter then 1 else 0)
      + length (surviving table propertiesInfo)
      + (if is_true ifExists then 0
         else sum_list (map (λ p, leaves (value p)) when)).
Proof.
  intros Hkeyspace Htable Hbindings Hwhen.
  assert (mutated table propertiesInfo ++ identifying table propertiesInfo
            ≡ₚ surviving table propertiesInfo) as Hsplit.
  { unfold mutated, identifying. rewrite (comm app).
    apply (filter_app_complement (λ p, columnName p ∈ primaryKeys_of table)). }
  split; [exact Hsplit |].
  rewrite getUpdate_unfold. cbn [query].
  rewrite placeholders_getUpdateQuery by (done || by apply Forall_filter_keep).
  fold (mutated table propertiesInfo). fold (identifying table propertiesInfo).
  rewrite <- Hsplit, length_app. lia.
Qed.

Lemma getUpdate_one_placeholder_per_binding_witness :
  placeholders
    (query (getUpdate example.t "ks"
              [example.bind_name; example.bind_unknown; example.bind_id]
              (VObject [("ttl", VNumber 60)]) [] VUndefined (VBool true)))
  = 2.
Proof.
  destruct (getUpdate_one_placeholder_per_binding example.t "ks"
              [example.bind_name; example.bind_unknown; example.bind_id] []
              (VObject [("ttl", VNumber 60)]) VUndefined (VBool true))
    as [_ Hcount]; [reflexivity | reflexivity | repeat constructor | constructor |].
  rewrite Hcount. reflexivity.
Defined.

Lemma map_columnName_filter (P : PropertyInfo → Prop) `{∀ p, Decision (P p)}
    (l l' : list PropertyInfo) :
  (∀ p q, columnName p = columnName q → P p ↔ P q) →
  map columnName l = map columnName l' →
  map columnName (filter P l) = map columnName (filter P l').
Proof.
  intros Hnames. revert l'.
  induction l as [|p l IH]; intros [|q l'] Heq; try discriminate; [done |].
  injection Heq as Hhead Htail. rewrite !filter_cons.
  destruct (decide (P p)) as [Hp | Hp], (decide (P q)) as [Hq | Hq].
  - cbn [map]. by rewrite Hhead, (IH l').
  - exfalso. apply Hq. by apply (Hnames p q).
  - exfalso. apply Hp. by apply (Hnames p q).
  - by apply IH.
Qed.

(** X12. The INSERT and DELETE texts depend on the bindings through their
    column names only: bound values (comparison values included), property
    names and conversion flags never reach the text. *)
Theorem insert_and_delete_text_by_column_names
    (table : table.t) (keyspace : string) (propertiesInfo others when : list PropertyInfo)
    (docInfo ifNotExists ifExists allowFilter : jsval) :
  map columnName propertiesInfo = map columnName others →
  query (getInsert table keyspace propertiesInfo docInfo ifNotExists allowFilter)
  = query (getInsert table keyspace others docInfo ifNotExists allowFilter)
  ∧ query (getDelete table keyspace propertiesInfo docInfo when ifExists)
    = query (getDelete table keyspace others docInfo when ifExists).
Proof.
  intros Hnames.
  assert (map columnName (filter (column_defined table) propertiesInfo)
          = map columnName (filter (column_defined table) others)) as Hkept.
  { apply map_columnName_filter; [| done].
    intros p q Hpq. unfold column_defined. by rewrite Hpq. }
  assert (map columnName
            (filter (λ p, columnName p ∈ primaryKeys_of table)
               (filter (column_defined table) propertiesInfo))
          = map columnName
              (filter (λ p, columnName p ∈ primaryKeys_of table)
                 (filter (column_defined table) others))) as Hkeys.
  { apply map_columnName_filter; [| done]. intros p q Hpq. by rewrite Hpq. }
  assert (map columnName
            (filter (λ p, columnName p ∉ primaryKeys_of table)
               (filter (column_defined table) propertiesInfo))
          = map columnName
              (filter (λ p, columnName p ∉ primaryKeys_of table)
                 (filter (column_defined table) others))) as Hcolumns.
  { apply map_columnName_filter; [| done]. intros p q Hpq. by rewrite Hpq. }
  assert (∀ l : list PropertyInfo,
            map (λ p, columnName p +:+ " = ?") l
            = map (λ c, c +:+ " = ?") (map columnName l)) as Hequalities
    by (intros l; by rewrite map_map).
  assert (∀ l : list PropertyInfo,
            map (λ _ : PropertyInfo, "?") l = map (λ _, "?") (map columnName l))
    as Hmarks by (intros l; by rewrite map_map).
  split.
  - unfold getInsert. cbn [query]. unfold _getInsertQuery.
    by rewrite !Hmarks, Hkept.
  - unfold getDelete. cbn [query]. unfold _getDeleteQuery.
    by rewrite !Hequalities, Hkeys, Hcolumns.
Qed.

Lemma insert_and_delete_text_by_column_names_witness :
  query (getInsert example.t "ks" [mkProperty "key" "id" between_1_and_9 true]
           VUndefined VUndefined VUndefined)
  = "INSERT INTO ks.t (id) VALUES (?)"
  ∧ query (getDelete example.t "ks" [mkProperty "key" "id" between_1_and_9 true]
             VUndefined [] VUndefined)
    = "DELETE FROM ks.t WHERE id = ?".
Proof.
  destruct (insert_and_delete_text_by_column_names example.t "ks"
              [mkProperty "key" "id" between_1_and_9 true] [example.bind_id] []
              VUndefined VUndefined VUndefined VUndefined eq_refl)
    as [Hinsert Hdelete].
  split; [rewrite Hinsert | rewrite Hdelete]; reflexivity.
Defined.

(** X13. The clauses [IF NOT EXISTS] and [IF EXISTS] are rendered for the
    Boolean [true] only, while the idempotent flag is lowered for every
    truthy value: with a truthy flag other than [true] the text is the
    unconditional one (for UPDATE and DELETE: the one without [IF EXISTS])
    and the statement is still reported as not idempotent. *)
Theorem truthy_flag_lowers_idempotency_only
    (table : table.t) (keyspace : string) (propertiesInfo when : list PropertyInfo)
    (docInfo flag allowFilter : jsval) :
  truthy flag = true → is_true flag = false →
  (query (getInsert table keyspace propertiesInfo docInfo flag allowFilter)
   = query (getInsert table keyspace propertiesInfo docInfo VUndefined allowFilter)
   ∧ isIdempotent (getInsert table keyspace propertiesInfo docInfo flag allowFilter)
     = false)
  ∧ (query (getUpdate table keyspace propertiesInfo docInfo when flag allowFilter)
     = query (getUpdate table keyspace propertiesInfo docInfo when VUndefined allowFilter)
     ∧ isIdempotent (getUpdate table keyspace propertiesInfo docInfo when flag allowFilter)
       = false)
  ∧ (query (getDelete table keyspace propertiesInfo docInfo when flag)
     = query (getDelete table keyspace propertiesInfo docInfo when VUndefined)
     ∧ isIdempotent (getDelete table keyspace propertiesInfo docInfo when flag) = false).
Proof.
  intros Htruthy Hstrict. rewrite !getUpdate_unfold.
  unfold getInsert, getDelete. cbn [query isIdempotent].
  unfold _getInsertQuery, _getUpdateQuery, _getDeleteQuery.
  rewrite Htruthy, Hstrict. cbn [is_true negb]. rewrite !andb_false_r.
  repeat split.
Qed.

Lemma truthy_flag_lowers_idempotency_only_witness :
  let inserted := getInsert example.t "ks" [example.bind_id] VUndefined (VNumber 1)
                    VUndefined in
  query inserted = "INSERT INTO ks.t (id) VALUES (?)" ∧ isIdempotent inserted = false.
Proof.
  intros inserted.
  destruct (truthy_flag_lowers_idempotency_only example.t "ks" [example.bind_id] []
              VUndefined (VNumber 1) VUndefined eq_refl eq_refl)
    as [[Htext Hflag] _].
  split; [subst inserted; rewrite Htext; reflexivity | exact Hflag].
Defined.

Lemma leaves_positive (v : jsval) : 0 < leaves v.
Proof. induction v; simpl; lia. Qed.

Lemma sum_leaves_positive (l : list PropertyInfo) :
  l ≠ [] → 0 < sum_list (map (λ p, leaves (value p)) l).
Proof.
  destruct l as [|p l]; [done |]. intros _. simpl.
  pose proof (leaves_positive (value p)). lia.
Qed.

Lemma getter_length (getter : Script) (n : nat) :
  no_elision (returned getter) →
  length (exprs (returned getter)) = n →
  length <$> elements (returned getter) = Some n
  ∧ ∀ ρ out, runInThisContext getter ρ = Some out → length out = n.
Proof.
  intros Hliteral <-. split.
  - rewrite Hliteral. simpl. by rewrite length_fmap.
  - intros ρ out. rewrite runInThisContext_no_elision by done.
    intros Hout. by apply length_mapM in Hout.
Qed.

(** X14. Identifiers are free of [?], property names are [script_safe], no
    binding names an inherited column, the identifying bindings exist and
    carry no composite value (for UPDATE also: a mutated binding survives,
    no numeric time-to-live or flag).  Under [ifExists === true] with a
    non-empty condition list the UPDATE and DELETE texts are those built
    without conditions, while the getters still emit the condition values:
    the array has as many elements more than the text has placeholders as
    the conditions have values, and this surplus is positive. *)
Theorem ifExists_overrides_conditions_in_text_only
    (table : table.t) (keyspace : string) (propertiesInfo when : list PropertyInfo)
    (docInfo allowFilter : jsval) :
  plain keyspace → plain (table.name table) →
  Forall plain_binding propertiesInfo → Forall plain_binding when →
  own_column_names propertiesInfo →
  safe_property_names (surviving table propertiesInfo ++ when) →
  when ≠ [] →
  identifying table propertiesInfo ≠ [] →
  scalar_values (identifying table propertiesInfo) →
  let surplus := sum_list (map (λ p, leaves (value p)) when) in
  let deleted := getDelete table keyspace propertiesInfo docInfo when (VBool true) in
  let updated :=
    getUpdate table keyspace propertiesInfo docInfo when (VBool true) allowFilter in
  0 < surplus
  ∧ (query deleted
       = query (getDelete table keyspace propertiesInfo docInfo [] (VBool true))
     ∧ length <$> elements (returned (paramsGetter deleted))
       = Some (placeholders (query deleted) + surplus)
     ∧ ∀ ρ out, runInThisContext (paramsGetter deleted) ρ = Some out →
                length out = placeholders (query deleted) + surplus)
  ∧ (mutated table propertiesInfo ≠ [] →
     typeof_number (docInfo_field docInfo "ttl") = false →
     typeof_number allowFilter = false →
     query updated
       = query (getUpdate table keyspace propertiesInfo docInfo [] (VBool true) allowFilter)
     ∧ length <$> elements (returned (paramsGetter updated))
       = Some (placeholders (query updated) + surplus)
     ∧ ∀ ρ out, runInThisContext (paramsGetter updated) ρ = Some out →
                length out = placeholders (query updated) + surplus).
Proof.
  intros Hkeyspace Htable Hbindings Hconditions Hown _ Hwhen Hkeys Hscalar
    surplus deleted updated.
  assert (Forall plain_binding (surviving table propertiesInfo)) as Hkept
    by by apply Forall_filter_keep.
  split; [by apply sum_leaves_positive | split].
  - subst deleted. rewrite !getDelete_own by done. cbn [query paramsGetter].
    fold (surviving table propertiesInfo).
    split; [reflexivity |].
    apply getter_length.
    + apply _deleteParamsGetter_no_elision. by left.
    + rewrite length_exprs_deleteParamsGetter, placeholders_getDeleteQuery by done.
      fold (identifying table propertiesInfo).
      rewrite sum_leaves_scalar by done. cbn [is_true]. subst surplus. lia.
  - intros Hmutated Httl Hflag. subst updated. rewrite !getUpdate_unfold.
    cbn [query paramsGetter].
    split; [reflexivity |].
    apply getter_length.
    + apply _updateParamsGetter_no_elision; [done | by left].
    + rewrite length_exprs_updateParamsGetter, placeholders_getUpdateQuery by done.
      fold (mutated table propertiesInfo). fold (identifying table propertiesInfo).
      rewrite sum_leaves_scalar, Httl, Hflag by done. cbn [is_true].
      subst surplus. lia.
Qed.

Lemma ifExists_overrides_conditions_in_text_only_witness :
  let condition := [mkProperty "name" "name" between_1_and_9 false] in
  let deleted := getDelete example.t "ks" [example.bind_id] VUndefined condition
                   (VBool true) in
  query deleted = "DELETE FROM ks.t WHERE id = ? IF EXISTS"
  ∧ length <$> elements (returned (paramsGetter deleted)) = Some (1 + 2).
Proof.
  intros condition deleted.
  destruct (ifExists_overrides_conditions_in_text_only example.t "ks"
              [example.bind_id] condition VUndefined VUndefined)
    as (_ & (_ & Hlength & _) & _).
  - reflexivity.
  - reflexivity.
  - repeat constructor.
  - repeat constructor.
  - repeat constructor.
  - vm_compute. repeat constructor.
  - done.
  - by vm_compute.
  - vm_compute. repeat constructor.
  - split; [reflexivity | exact Hlength].
Defined.

(** ** Missing conversion functions *)

(** X15. The property name is [script_safe].  When [mappingInfo] has no
    conversion function for the property of
    a binding that asks for conversion, the getter throws for a literal or
    scalar comparison value; for a membership value the function is looked
    up once per element of the sequence, so the getter throws exactly when
    the sequence is non-empty and returns one empty array otherwise. *)
Theorem getter_without_conversion_function
    (ρ : Env) (prefix : expr) (propName key key' : string)
    (literal operand w : jsval) (items : list jsval) (isIn : bool) :
  script_safe propName = true →
  getFromModelFn ρ propName = None →
  (is_comparison literal = false → eval ρ prefix = Some w →
   run_tokens (_valueGetterSingle prefix propName literal true) ρ = None)
  ∧ (eval ρ prefix = Some (QueryOperator key' w isIn) →
     run_tokens (_valueGetterSingle prefix propName (QueryOperator key operand false) true) ρ
     = None)
  ∧ (eval ρ prefix = Some (QueryOperator key' (VArray items) isIn) →
     run_tokens (_valueGetterSingle prefix propName (QueryOperator key operand true) true) ρ
     = match items with [] => Some [VArray []] | _ :: _ => None end).
Proof.
  intros _ Hlookup. split; [| split].
  - intros Hliteral Hprefix.
    assert (_valueGetterSingle prefix propName literal true
            = [Expr (_getMappingFunctionCall propName prefix)]) as ->
      by by destruct literal.
    unfold _getMappingFunctionCall.
    by rewrite run_tokens_single, eval_EFromModel, Hlookup.
  - intros Hprefix. cbn [_valueGetterSingle andb negb]. unfold _getMappingFunctionCall.
    by rewrite run_tokens_single, eval_EFromModel, Hlookup.
  - intros Hprefix. cbn [_valueGetterSingle andb].
    rewrite run_tokens_single, eval_EMapFromModel,
      (eval_operand ρ prefix key' (VArray items) isIn Hprefix), Hlookup.
    by destruct items.
Qed.

Lemma getter_without_conversion_function_witness :
  let shape := QueryOperator "IN" (VArray [VNumber 1]) true in
  run_tokens (_valueGetterSingle (EProperty EDoc "tag") "tag" shape true)
    (mkEnv (VObject [("tag", QueryOperator "IN" (VArray []) true)]) VUndefined
       example.no_conversion)
  = Some [VArray []]
  ∧ run_tokens (_valueGetterSingle (EProperty EDoc "tag") "tag" shape true)
      (mkEnv (VObject [("tag", shape)]) VUndefined example.no_conversion)
    = None
  ∧ run_tokens (_valueGetterSingle (EProperty EDoc "id") "id" (VNumber 5) true)
      (mkEnv example.document VUndefined example.no_conversion)
    = None.
Proof.
  intros shape. split; [| split].
  - destruct (getter_without_conversion_function
                (mkEnv (VObject [("tag", QueryOperator "IN" (VArray []) true)]) VUndefined
                   example.no_conversion)
                (EProperty EDoc "tag") "tag" "IN" "IN" VNull (VArray [VNumber 1]) VNull
                [] true eq_refl eq_refl) as (_ & _ & Hmembership).
    apply Hmembership. reflexivity.
  - destruct (getter_without_conversion_function
                (mkEnv (VObject [("tag", shape)]) VUndefined example.no_conversion)
                (EProperty EDoc "tag") "tag" "IN" "IN" VNull (VArray [VNumber 1]) VNull
                [VNumber 1] true eq_refl eq_refl) as (_ & _ & Hmembership).
    apply Hmembership. reflexivity.
  - destruct (getter_without_conversion_function
                (mkEnv example.document VUndefined example.no_conversion)
                (EProperty EDoc "id") "id" "=" "=" (VNumber 5) VNull (VNumber 5)
                [] true eq_refl eq_refl) as (Hliteral & _ & _).
    apply Hliteral; reflexivity.
Defined.

(** ** Composite and membership values on documents *)




